(** * CrabTrader agent: the iteration orchestrator of [src/index.ts]

    A shallow embedding of the orchestrator (health gate, position
    reconciliation, decision executor, mention responder, daily digest, tip
    disbursement, scheduler loop and signal handlers) together with the
    properties of its specification.

    - JavaScript numbers that carry prices, amounts and basis points are IEEE
      754 binary64 values: Rocq's primitive [float], with the very same
      operations the source applies to them.
    - Millisecond time stamps ([Date.now()], [new Date()]) and counters are
      integers far below 2^53, where binary64 arithmetic is exact: they are
      [Z].
    - Every collaborator imported by [index.ts] (wallet, markets, AI, trading,
      persistence, social clients, post templates) is outside the file.  A call
      to one of them is an event answered by an arbitrary oracle that sees the
      whole history; the answer is a value or a thrown exception.
    - [logger] calls have no influence on control flow and are left out. *)

From Stdlib Require Import ZArith List String Bool Lia.
From Stdlib Require Import Floats.
Import ListNotations.

Set Implicit Arguments.
Open Scope Z_scope.

(* ================================================================== *)
(** * JavaScript numbers *)
(* ================================================================== *)

Module JS.

(** [floor (num / den + 1/2)] on exact fractions, [0 < den]. *)
Definition round_half_up (num den : Z) : Z := (2 * num + den) / (2 * den).

(** [Math.round(x)]: the integer closest to [x], ties towards +infinity;
    NaN, the infinities and the zeros are returned unchanged, and a negative
    argument that rounds to zero gives -0.  A finite non-zero binary64 is
    [(-1)^s * m * 2^e]; it is already integral when [0 <= e]. *)
Definition Math_round (x : float) : float :=
  match Prim2SF x with
  | S754_finite s m e =>
      if 0 <=? e then x
      else
        let d := 2 ^ (- e) in
        let k := if s then - round_half_up (- Zpos m) d
                 else round_half_up (Zpos m) d in
        let r := of_uint63 (Uint63.of_Z k) in
        if s then (- r)%float else r
  | _ => x
  end.

(** [Math.floor(x)]. *)
Definition Math_floor (x : float) : float :=
  match Prim2SF x with
  | S754_finite s m e =>
      if 0 <=? e then x
      else
        let d := 2 ^ (- e) in
        if s then (- of_uint63 (Uint63.of_Z (- ((- Zpos m) / d))))%float
        else of_uint63 (Uint63.of_Z (Zpos m / d))
  | _ => x
  end.

(** The integer a number denotes, when it denotes one (array indices). *)
Definition to_integer (x : float) : option Z :=
  match Prim2SF x with
  | S754_zero _ => Some 0
  | S754_finite s m e =>
      if 0 <=? e then Some ((if s then -1 else 1) * (Zpos m * 2 ^ e))
      else if Zpos m mod 2 ^ (- e) =? 0
           then Some ((if s then -1 else 1) * (Zpos m / 2 ^ (- e)))
           else None
  | _ => None
  end.

(** The number of an array length. *)
Definition of_length (n : nat) : float := of_uint63 (Uint63.of_Z (Z.of_nat n)).

(** [arr[i]] for a number [i]: [undefined] unless [i] is an index of [arr]. *)
Definition index {A} (arr : list A) (i : float) : option A :=
  match to_integer i with
  | Some z => if z <? 0 then None else nth_error arr (Z.to_nat z)
  | None => None
  end.

(** Truthiness of a [string | null | undefined]. *)
Definition truthy (s : option string) : bool :=
  match s with
  | Some v => negb (v =? "")%string
  | None => false
  end.

(** Truthiness of a number: false for 0, -0 and NaN. *)
Definition truthy_num (x : float) : bool := negb (is_nan x || is_zero x).

(** [x >= y] on numbers (false as soon as one side is NaN). *)
Definition geb (x y : float) : bool := (y <=? x)%float.

(** Strings hold the UTF-8 encoding of the JavaScript string.  The white
    space and the line terminators that [String.prototype.trim] removes are
    U+0009 to U+000D and U+0020 (one byte each), U+00A0 (C2 A0), U+1680
    (E1 9A 80), U+2000 to U+200A, U+2028, U+2029 and U+202F (E2 80 followed
    by 80 to 8A, A8, A9, AF), U+205F (E2 81 9F), U+3000 (E3 80 80) and U+FEFF
    (EF BB BF). *)
Definition is_space (c : Ascii.ascii) : bool :=
  let n := Ascii.nat_of_ascii c in
  ((9 <=? n)%nat && (n <=? 13)%nat) || (n =? 32)%nat.

Definition is_space2 (c1 c2 : Ascii.ascii) : bool :=
  (Ascii.nat_of_ascii c1 =? 194)%nat && (Ascii.nat_of_ascii c2 =? 160)%nat.

Definition is_space3 (c1 c2 c3 : Ascii.ascii) : bool :=
  let b1 := Ascii.nat_of_ascii c1 in
  let b2 := Ascii.nat_of_ascii c2 in
  let b3 := Ascii.nat_of_ascii c3 in
  ((b1 =? 225) && (b2 =? 154) && (b3 =? 128))%nat
  || ((b1 =? 226) && (b2 =? 128)
      && (((128 <=? b3) && (b3 <=? 138))
          || (b3 =? 168) || (b3 =? 169) || (b3 =? 175)))%nat
  || ((b1 =? 226) && (b2 =? 129) && (b3 =? 159))%nat
  || ((b1 =? 227) && (b2 =? 128) && (b3 =? 128))%nat
  || ((b1 =? 239) && (b2 =? 187) && (b3 =? 191))%nat.

(** [Boolean(s.trim())]: some character of [s] is not white space. *)
Fixpoint trim_nonempty (s : string) : bool :=
  match s with
  | EmptyString => false
  | String c1 r1 =>
      if is_space c1 then trim_nonempty r1
      else
        match r1 with
        | EmptyString => true
        | String c2 r2 =>
            if is_space2 c1 c2 then trim_nonempty r2
            else
              match r2 with
              | EmptyString => true
              | String c3 r3 =>
                  if is_space3 c1 c2 c3 then trim_nonempty r3 else true
              end
        end
  end.

(** A property of an object that may be missing: [undefined], [null], or a
    value.  Where the code treats the first two alike ([??], [||], [?.]) the
    model uses [option]. *)
Inductive optional (A : Type) : Type :=
  | undefined
  | null
  | value (a : A).

Arguments undefined {A}.
Arguments null {A}.
Arguments value {A} a.

End JS.

(** The literal [0.1] of the source, as the binary64 it denotes. *)
Definition num_0_1 : float := 0x1.999999999999ap-4%float.

(** [Math.round(((currentPrice - entry_price) / entry_price) * 10000)], the
    expression of lines 293 and 466. *)
Definition pnlBpsOf (currentPrice entry_price : float) : float :=
  JS.Math_round (((currentPrice - entry_price) / entry_price) * 10000)%float.

(* ================================================================== *)
(** * Data model *)
(* ================================================================== *)

Inductive Position := YES | NO.
Inductive Action := BUY | SELL | HOLD.
Inductive Platform := TWITTER | FARCASTER.
Inductive TradeStatus := OPEN | CLOSED.
Inductive PostType := TRADE_ENTRY | TRADE_EXIT | DAILY_SUMMARY | REPLY | LAUNCH.
Inductive Signal := SIGINT | SIGTERM.

Definition Platform_eqb (a b : Platform) : bool :=
  match a, b with
  | TWITTER, TWITTER | FARCASTER, FARCASTER => true
  | _, _ => false
  end.

Module Decision.
Record t := mk {
  action : Action;
  marketId : string;
  marketName : string;
  position : Position;
  amountEth : float;
  reasoning : string;
  confidence : float }.
End Decision.

(** A row of the [trades] table as the queries return it. *)
Module Trade.
Record t := mk {
  id : string;
  market_id : string;
  market_name : string;
  position : Position;
  amount_eth : JS.optional float;
  amount_usd : option float;
  entry_price : float;
  entry_timestamp : Z;
  pnl_bps : option float;
  status : TradeStatus }.
End Trade.

(** The argument of [createTrade]. *)
Module NewTrade.
Record t := mk {
  market_id : string;
  market_name : string;
  position : Position;
  amount_eth : float;
  amount_usd : float;
  entry_price : float;
  entry_tx_hash : string;
  entry_timestamp : Z;
  status : TradeStatus }.
End NewTrade.

(** The second argument of [updateTrade] on a SELL: exactly these fields. *)
Module TradePatch.
Record t := mk {
  exit_price : float;
  exit_tx_hash : string;
  exit_timestamp : Z;
  pnl_bps : float;
  status : TradeStatus }.
End TradePatch.

Module SocialPost.
Record t := mk {
  platform : Platform;
  post_id : option string;
  content : string;
  post_type : PostType;
  related_trade_id : option string;
  timestamp : Z }.
End SocialPost.

(** A row of the [mentions] table. *)
Module Mention.
Record t := mk {
  id : string;
  platform : Platform;
  mention_id : string;
  author : string;
  content : string;
  replied : bool;
  timestamp : Z;
  reply_id : option string }.
End Mention.

(** The argument of [recordMention]. *)
Module NewMention.
Record t := mk {
  platform : Platform;
  mention_id : string;
  author : string;
  content : string;
  replied : bool;
  timestamp : Z }.
End NewMention.

Module PortfolioSnapshot.
Record t := mk {
  timestamp : Z;
  total_value_eth : float;
  open_positions_count : Z;
  daily_pnl_bps : float }.
End PortfolioSnapshot.

Module Market.
Record t := mk {
  id : string;
  name : string;
  yesPrice : float;
  noPrice : float;
  volume24h : float }.
End Market.

Module MarketData.
Record t := mk { markets : list Market.t }.
End MarketData.

Module Headline.
Record t := mk { title : string }.
End Headline.

Module PriceSnapshot.
Record t := mk { yesPrice : float; noPrice : float }.
End PriceSnapshot.

Module PositionView.
Record t := mk {
  marketId : string;
  marketName : string;
  position : Position;
  entryPrice : float;
  currentPrice : float;
  pnlBps : float }.
End PositionView.

Module Analysis.
Record t := mk {
  decisions : list Decision.t;
  marketCommentary : option string;
  riskAssessment : option string;
  portfolioRecommendation : option string }.
End Analysis.

Module TradeRequest.
Record t := mk {
  marketId : string;
  marketName : string;
  position : Position;
  amountEth : float;
  expectedPrice : float }.
End TradeRequest.

Module TradeResult.
Record t := mk {
  resolvedMarketId : option string;
  actualPrice : float;
  txHash : string;
  timestamp : Z }.
End TradeResult.

Module CloseResult.
Record t := mk { txHash : string; timestamp : Z }.
End CloseResult.

Module EntryPostParams.
Record t := mk {
  marketName : string;
  position : Position;
  amountEth : float;
  price : float;
  txHash : string;
  reasoning : string;
  confidence : float;
  timestamp : Z }.
End EntryPostParams.

Module ExitPostParams.
Record t := mk {
  marketName : string;
  position : Position;
  entryPrice : float;
  exitPrice : float;
  pnlBps : float;
  amountEth : float;
  txHash : string;
  timestamp : Z;
  exitReason : string }.
End ExitPostParams.

Module SummaryParams.
Record t := mk {
  totalValue : float;
  dailyPnlBps : float;
  tradesToday : Z;
  openPositions : Z }.
End SummaryParams.

Module ReflectionParams.
Record t := mk {
  commentary : string;
  riskAssessment : option string;
  portfolioRecommendation : option string;
  timestamp : Z }.
End ReflectionParams.

Module RoundParams.
Record t := mk {
  portfolioEth : float;
  openPositions : Z;
  marketsScanned : Z;
  decisionsCount : Z;
  tradesExecuted : Z;
  hasCommentary : bool }.
End RoundParams.

Module TwitterMention.
Record t := mk { id : string; author : string; text : string; createdAt : Z }.
End TwitterMention.

Module FarcasterMention.
Record t := mk { hash : string; author : string; text : string; timestamp : Z }.
End FarcasterMention.

Module IterationResult.
Record t := mk { ok : bool; message : string }.
End IterationResult.

(** The part of [config] that [index.ts] reads. *)
Module Config.
Record t := mk {
  disableTips : bool;
  tipRecipients : list string;
  tipIntervalMs : Z;
  tipAmountEth : float;
  disableMentions : bool;
  ethUsdPrice : float;
  stopLossBps : float;
  takeProfitBps : float;
  farcaster_signerUuid : option string;
  loopIntervalMs : Z }.
End Config.

(** [Map<string, {yesPrice, noPrice}>]: the entries in insertion order; a
    later entry for a key replaces an earlier one. *)
Definition PriceMap := list (string * PriceSnapshot.t).

Definition Map_get (m : PriceMap) (k : string) : option PriceSnapshot.t :=
  option_map snd (find (fun kv => (fst kv =? k)%string) (rev m)).

(* ================================================================== *)
(** * Collaborators, events and the world *)
(* ================================================================== *)

(** A thrown value, reduced to the message [runOneIteration] reports. *)
Definition Exn := string.

(** One constructor per imported function that [index.ts] calls, indexed by
    the type of the value it resolves to.  The post templates are called
    without [await]; they are events like the others, since they run inside
    the same [try] blocks and may throw.  The modules of the collaborators
    are not part of the sources at hand; the result type of the two post
    functions is the one of the social interface of the specification,
    [post(content) -> post_id | null]. *)
Inductive Call : Type -> Type :=
  (* blockchain/wallet *)
  | HasSufficientBalance : Call bool
  | GetBalance : Call Z
  (* markets *)
  | FetchMarkets : Call MarketData.t
  | FetchNewsHeadlines (n : Z) : Call (list Headline.t)
  (* ai/analyzer *)
  | AnalyzeMarkets (portfolioValue : float) (openPositions : list PositionView.t)
      (markets : list Market.t) (newsContext : list string) : Call Analysis.t
  | GenerateReply (text : string) : Call string
  (* blockchain/trades, blockchain/tips *)
  | ExecuteTrade (req : TradeRequest.t) : Call TradeResult.t
  | ClosePosition (marketName : string) (position : Position)
      (entryPrice currentPrice amountUsd : float) (marketId : string)
      : Call CloseResult.t
  | GetMarketPrice (marketId : string) (position : Position) : Call float
  | SendTip (recipient : string) (amountEth : float) : Call unit
  (* database/queries *)
  | CreateTrade (t : NewTrade.t) : Call Trade.t
  | UpdateTrade (id : string) (patch : TradePatch.t) : Call unit
  | GetOpenTrades : Call (list Trade.t)
  | GetAllTrades (limit : Z) : Call (list Trade.t)
  | CreatePortfolioSnapshot (s : PortfolioSnapshot.t) : Call unit
  | RecordSocialPost (p : SocialPost.t) : Call unit
  | GetUnprocessedMentions : Call (list Mention.t)
  | MarkMentionReplied (id : string) (replyId : string) : Call unit
  | RecordMention (m : NewMention.t) : Call unit
  (* social/templates *)
  | GenerateTradeEntryPostForPlatform (p : EntryPostParams.t) (pf : Platform)
      : Call string
  | GenerateTradeExitPostForPlatform (p : ExitPostParams.t) (pf : Platform)
      : Call string
  | GenerateDailySummaryForPlatform (p : SummaryParams.t) (pf : Platform)
      : Call string
  | GenerateMarketReflectionPostForPlatform (p : ReflectionParams.t)
      (pf : Platform) : Call string
  | GenerateRoundSummaryForPlatform (p : RoundParams.t) (pf : Platform)
      : Call string
  (* social/twitter, social/farcaster *)
  | PostTweetWithRateLimit (content : string) : Call (option string)
  | PostCastWithRateLimit (content : string) : Call (option string)
  | FetchTwitterMentions : Call (list TwitterMention.t)
  | FetchFarcasterMentions : Call (list FarcasterMention.t)
  | ReplyToTweet (id : string) (text : string) : Call string
  | ReplyToCast (hash : string) (text : string) : Call string
  (* nft/minter, utils/helpers *)
  | ProcessNotableTrades : Call unit
  | Sleep (ms : Z) : Call unit.

(** What happened, newest first: a collaborator call with its outcome, a read
    of the system clock, a draw of [Math.random()]. *)
Inductive Event : Type :=
  | Ev (A : Type) (c : Call A) (r : Exn + A)
  | EvClock (t : Z)
  | EvRandom (x : float).

Arguments Ev {A} c r.

Definition History := list Event.

(** The environment: every answer may depend on everything that happened
    before.  The clock and the random generator never throw. *)
Module Env.
Record t := mk {
  respond : forall A : Type, History -> Call A -> Exn + A;
  clock : History -> Z;
  random : History -> float;
  (** of the promises of a [Promise.all] that reject, which one rejects
      first in time: its index among them, modulo their number *)
  settles_first : History -> nat }.
End Env.

(** The module-level variables of [index.ts]. *)
Module Globals.
Record t := mk {
  isRunning : bool;
  lastDailySummary : Z;
  lastTipTime : Z }.
End Globals.

Module World.
Record t := mk { trace : History; globals : Globals.t }.
End World.

(** [let isRunning = false; let lastDailySummary = 0; let lastTipTime = 0]. *)
Definition initialGlobals : Globals.t := Globals.mk false 0 0.
Definition initialWorld : World.t := World.mk [] initialGlobals.

Definition DAILY_SUMMARY_INTERVAL : Z := 24 * 60 * 60 * 1000.

Definition push (e : Event) (w : World.t) : World.t :=
  World.mk (e :: World.trace w) (World.globals w).

Definition set_isRunning (b : bool) (w : World.t) : World.t :=
  let g := World.globals w in
  World.mk (World.trace w)
    (Globals.mk b (Globals.lastDailySummary g) (Globals.lastTipTime g)).

Definition set_lastDailySummary (v : Z) (w : World.t) : World.t :=
  let g := World.globals w in
  World.mk (World.trace w)
    (Globals.mk (Globals.isRunning g) v (Globals.lastTipTime g)).

Definition set_lastTipTime (v : Z) (w : World.t) : World.t :=
  let g := World.globals w in
  World.mk (World.trace w)
    (Globals.mk (Globals.isRunning g) (Globals.lastDailySummary g) v).

Definition lastDailySummary (w : World.t) : Z :=
  Globals.lastDailySummary (World.globals w).
Definition lastTipTime (w : World.t) : Z :=
  Globals.lastTipTime (World.globals w).
Definition isRunning (w : World.t) : bool :=
  Globals.isRunning (World.globals w).

(* ================================================================== *)
(** * The monad of asynchronous code *)
(* ================================================================== *)

(** An [async] computation: from a world to a value or a thrown exception,
    and the world it leaves.  State written before a [throw] stays written. *)
Definition M (A : Type) : Type := World.t -> (Exn + A) * World.t.

Definition ret {A} (a : A) : M A := fun w => (inr a, w).

Definition throw {A} (e : Exn) : M A := fun w => (inl e, w).

Definition bind {A B} (m : M A) (k : A -> M B) : M B :=
  fun w =>
    match m w with
    | (inr a, w1) => k a w1
    | (inl e, w1) => (inl e, w1)
    end.

(** [try { m } catch (error) { h error }]. *)
Definition try_catch {A} (m : M A) (h : Exn -> M A) : M A :=
  fun w =>
    match m w with
    | (inr a, w1) => (inr a, w1)
    | (inl e, w1) => h e w1
    end.

Declare Scope m_scope.
Delimit Scope m_scope with m.
Notation "x <- m ;; k" := (bind m (fun x => k))
  (at level 61, m at next level, right associativity) : m_scope.
Notation "m ;; k" := (bind m (fun _ => k))
  (at level 61, right associativity) : m_scope.
Open Scope m_scope.

(** [for (const x of l) { body x }]. *)
Fixpoint for_of {A} (l : list A) (body : A -> M unit) : M unit :=
  match l with
  | [] => ret tt
  | x :: xs => body x ;; for_of xs body
  end.

(** A [for ... of] loop that updates local variables [s]. *)
Fixpoint for_fold {A S} (l : list A) (s : S) (body : A -> S -> M S) : M S :=
  match l with
  | [] => ret s
  | x :: xs => s1 <- body x s ;; for_fold xs s1 body
  end.

(** [l.map(async (x) => f x)] for bodies that suspend at their first
    statement: every body is started, in order, whatever the others do; the
    outcomes, in order. *)
Fixpoint promise_all_settled {A B} (f : A -> M B) (l : list A)
    : World.t -> list (Exn + B) * World.t :=
  match l with
  | [] => fun w => ([], w)
  | x :: xs =>
      fun w =>
        let (r, w1) := f x w in
        let (rs, w2) := promise_all_settled f xs w1 in
        (r :: rs, w2)
  end.

Definition rejections {B} (rs : list (Exn + B)) : list Exn :=
  flat_map (fun r => match r with inl e => [e] | inr _ => [] end) rs.

Definition fulfilments {B} (rs : list (Exn + B)) : list B :=
  flat_map (fun r => match r with inl _ => [] | inr b => [b] end) rs.

(** [await Promise.all(...)]: it resolves to the list of results when no
    promise rejects, and rejects otherwise with the reason of the promise
    that rejected first in time, which [first] decides. *)
Definition promise_all_map {A B} (first : History -> nat) (f : A -> M B)
    (l : list A) : M (list B) :=
  fun w =>
    let (rs, w1) := promise_all_settled f l w in
    match rejections rs with
    | [] => (inr (fulfilments rs), w1)
    | e :: es =>
        (inl (nth (first (World.trace w1) mod List.length (e :: es)) (e :: es) e),
         w1)
    end.

Definition get_lastDailySummary : M Z := fun w => (inr (lastDailySummary w), w).
Definition get_lastTipTime : M Z := fun w => (inr (lastTipTime w), w).
Definition put_lastDailySummary (v : Z) : M unit :=
  fun w => (inr tt, set_lastDailySummary v w).
Definition put_lastTipTime (v : Z) : M unit :=
  fun w => (inr tt, set_lastTipTime v w).

(* ================================================================== *)
(** * The orchestrator *)
(* ================================================================== *)

Section Orchestrator.

Variable config : Config.t.
Variable env : Env.t.

(** Pure helpers of [utils/helpers] and of the JavaScript runtime that the
    file uses and that are defined elsewhere: the wei-to-ETH conversion, the
    decimal rendering of a number in a template literal, and local midnight
    of a time stamp ([setHours(0, 0, 0, 0)]). *)
Variable weiToEth : Z -> float.
Variable numToString : float -> string.
Variable startOfLocalDay : Z -> Z.

(** [await c(...)]: ask the environment, record the event. *)
Definition call {A} (c : Call A) : M A :=
  fun w =>
    let r := Env.respond env (World.trace w) c in
    (r, push (Ev c r) w).

(** [Date.now()] and [new Date()]. *)
Definition Date_now : M Z :=
  fun w =>
    let t := Env.clock env (World.trace w) in
    (inr t, push (EvClock t) w).

(** [Math.random()]. *)
Definition Math_random : M float :=
  fun w =>
    let x := Env.random env (World.trace w) in
    (inr x, push (EvRandom x) w).

(** ** Lines 30-36 *)
Definition pickTipRecipient : M (option string) :=
  if Config.disableTips config
     || (List.length (Config.tipRecipients config) =? 0)%nat
  then ret None
  else
    x <- Math_random ;;
    let index :=
      JS.Math_floor (x * JS.of_length (List.length (Config.tipRecipients config)))%float in
    ret (JS.index (Config.tipRecipients config) index).

(** ** Lines 41-63.  The alert text carries the balance; its emoji are
    dropped. *)
Definition alertMessage (balance : Z) : string :=
  ("Low balance alert: " ++ numToString (weiToEth balance)
     ++ " ETH remaining. Need to refuel soon!")%string.

Definition healthCheck : M bool :=
  try_catch
    (hasBalance <- call HasSufficientBalance ;;
     if negb hasBalance then
       balance <- call GetBalance ;;
       try_catch
         (call (PostTweetWithRateLimit (alertMessage balance)) ;; ret tt)
         (fun _ => ret tt) ;;
       ret false
     else ret true)
    (fun _ => ret false).

(** ** Lines 68-168 *)
Definition processTwitterMention (mention : TwitterMention.t) : M unit :=
  try_catch
    (existing <- call GetUnprocessedMentions ;;
     let alreadyProcessed :=
       existsb (fun m =>
                  (Mention.mention_id m =? TwitterMention.id mention)%string
                  && Platform_eqb (Mention.platform m) TWITTER) existing in
     if negb alreadyProcessed then
       call (RecordMention
               (NewMention.mk TWITTER (TwitterMention.id mention)
                  (TwitterMention.author mention) (TwitterMention.text mention)
                  false (TwitterMention.createdAt mention))) ;;
       reply <- call (GenerateReply (TwitterMention.text mention)) ;;
       replyId <- call (ReplyToTweet (TwitterMention.id mention) reply) ;;
       mentions <- call GetUnprocessedMentions ;;
       let dbMention :=
         find (fun m => (Mention.mention_id m =? TwitterMention.id mention)%string)
              mentions in
       match dbMention with
       | Some m => call (MarkMentionReplied (Mention.id m) replyId)
       | None => ret tt
       end ;;
       ts <- Date_now ;;
       call (RecordSocialPost
               (SocialPost.mk TWITTER (Some replyId) reply REPLY None ts)) ;;
       call (Sleep 2000)
     else ret tt)
    (fun _ => ret tt).

Definition processFarcasterMention (mention : FarcasterMention.t) : M unit :=
  try_catch
    (existing <- call GetUnprocessedMentions ;;
     let alreadyProcessed :=
       existsb (fun m =>
                  (Mention.mention_id m =? FarcasterMention.hash mention)%string
                  && Platform_eqb (Mention.platform m) FARCASTER) existing in
     if negb alreadyProcessed then
       call (RecordMention
               (NewMention.mk FARCASTER (FarcasterMention.hash mention)
                  (FarcasterMention.author mention)
                  (FarcasterMention.text mention)
                  false (FarcasterMention.timestamp mention))) ;;
       reply <- call (GenerateReply (FarcasterMention.text mention)) ;;
       replyHash <- call (ReplyToCast (FarcasterMention.hash mention) reply) ;;
       mentions <- call GetUnprocessedMentions ;;
       let dbMention :=
         find (fun m =>
                 (Mention.mention_id m =? FarcasterMention.hash mention)%string)
              mentions in
       match dbMention with
       | Some m => call (MarkMentionReplied (Mention.id m) replyHash)
       | None => ret tt
       end ;;
       ts <- Date_now ;;
       call (RecordSocialPost
               (SocialPost.mk FARCASTER (Some replyHash) reply REPLY None ts)) ;;
       call (Sleep 2000)
     else ret tt)
    (fun _ => ret tt).

Definition processMentions : M unit :=
  if Config.disableMentions config then ret tt
  else
    try_catch
      (twitterMentions <- call FetchTwitterMentions ;;
       for_of twitterMentions processTwitterMention ;;
       farcasterMentions <- call FetchFarcasterMentions ;;
       for_of farcasterMentions processFarcasterMention)
      (fun _ => ret tt).

(** ** Lines 173-365: [executeTradingDecisions] *)

(** Lines 304-308. *)
Definition exitReasonOf (pnlBps : float) : string :=
  if (pnlBps <=? - Config.stopLossBps config)%float
  then "Stop-loss risk control hit."
  else if JS.geb pnlBps (Config.takeProfitBps config)
       then "Take-profit rule triggered."
       else "Signal shifted; trimming risk.".

(** Lines 196-272: the BUY branch, up to [executed += 1]. *)
Definition executeBuy (decision : Decision.t) (marketPrices : PriceMap)
  : M unit :=
  let priceSnapshot := Map_get marketPrices (Decision.marketId decision) in
  let expectedPrice :=
    match Decision.position decision with
    | YES => option_map PriceSnapshot.yesPrice priceSnapshot
    | NO => option_map PriceSnapshot.noPrice priceSnapshot
    end in
  let amountUsd :=
    (Decision.amountEth decision * Config.ethUsdPrice config)%float in
  result <- call (ExecuteTrade
                    (TradeRequest.mk (Decision.marketId decision)
                       (Decision.marketName decision)
                       (Decision.position decision)
                       (Decision.amountEth decision)
                       (match expectedPrice with
                        | Some p => p
                        | None => 5000%float
                        end))) ;;
  let marketIdForDb :=
    match TradeResult.resolvedMarketId result with
    | Some slug => slug
    | None => Decision.marketId decision
    end in
  trade <- call (CreateTrade
                   (NewTrade.mk marketIdForDb (Decision.marketName decision)
                      (Decision.position decision)
                      (Decision.amountEth decision) amountUsd
                      (TradeResult.actualPrice result)
                      (TradeResult.txHash result)
                      (TradeResult.timestamp result) OPEN)) ;;
  let postParams :=
    EntryPostParams.mk (Decision.marketName decision)
      (Decision.position decision) (Decision.amountEth decision)
      (TradeResult.actualPrice result) (TradeResult.txHash result)
      (Decision.reasoning decision) (Decision.confidence decision)
      (TradeResult.timestamp result) in
  try_catch
    (tweetContent <- call (GenerateTradeEntryPostForPlatform postParams TWITTER) ;;
     tweetId <- call (PostTweetWithRateLimit tweetContent) ;;
     if JS.truthy tweetId then
       ts <- Date_now ;;
       call (RecordSocialPost
               (SocialPost.mk TWITTER tweetId tweetContent TRADE_ENTRY
                  (Some (Trade.id trade)) ts))
     else ret tt)
    (fun _ => ret tt) ;;
  try_catch
    (castContent <- call (GenerateTradeEntryPostForPlatform postParams FARCASTER) ;;
     castHash <- call (PostCastWithRateLimit castContent) ;;
     ts <- Date_now ;;
     call (RecordSocialPost
             (SocialPost.mk FARCASTER castHash castContent TRADE_ENTRY
                (Some (Trade.id trade)) ts)))
    (fun _ => ret tt).

(** Lines 281-284: [amount_usd ?? (amount_eth !== undefined ? amount_eth *
    ethUsdPrice : decision.amountEth * ethUsdPrice)].  A [null] amount passes
    the test and counts as 0 in the product. *)
Definition amountUsdOf (decision : Decision.t) (tradeToClose : Trade.t)
  : float :=
  match Trade.amount_usd tradeToClose with
  | Some usd => usd
  | None =>
      match Trade.amount_eth tradeToClose with
      | JS.value eth => (eth * Config.ethUsdPrice config)%float
      | JS.null => (0 * Config.ethUsdPrice config)%float
      | JS.undefined =>
          (Decision.amountEth decision * Config.ethUsdPrice config)%float
      end
  end.

(** Lines 279-356: the SELL branch once [tradeToClose] is found, up to
    [executed += 1]. *)
Definition closeTrade (decision : Decision.t) (tradeToClose : Trade.t)
  : M unit :=
  currentPrice <- call (GetMarketPrice (Decision.marketId decision)
                          (Trade.position tradeToClose)) ;;
  let amountUsd := amountUsdOf decision tradeToClose in
  result <- call (ClosePosition (Trade.market_name tradeToClose)
                    (Trade.position tradeToClose)
                    (Trade.entry_price tradeToClose) currentPrice amountUsd
                    (Trade.market_id tradeToClose)) ;;
  let pnlBps :=
    JS.Math_round
      (((currentPrice - Trade.entry_price tradeToClose)
        / Trade.entry_price tradeToClose) * 10000)%float in
  call (UpdateTrade (Trade.id tradeToClose)
          (TradePatch.mk currentPrice (CloseResult.txHash result)
             (CloseResult.timestamp result) pnlBps CLOSED)) ;;
  let exitReason := exitReasonOf pnlBps in
  let postParams :=
    ExitPostParams.mk (Trade.market_name tradeToClose)
      (Trade.position tradeToClose) (Trade.entry_price tradeToClose)
      currentPrice pnlBps num_0_1 (CloseResult.txHash result)
      (CloseResult.timestamp result) exitReason in
  try_catch
    (tweetContent <- call (GenerateTradeExitPostForPlatform postParams TWITTER) ;;
     tweetId <- call (PostTweetWithRateLimit tweetContent) ;;
     if JS.truthy tweetId then
       ts <- Date_now ;;
       call (RecordSocialPost
               (SocialPost.mk TWITTER tweetId tweetContent TRADE_EXIT
                  (Some (Trade.id tradeToClose)) ts))
     else ret tt)
    (fun _ => ret tt) ;;
  try_catch
    (castContent <- call (GenerateTradeExitPostForPlatform postParams FARCASTER) ;;
     castHash <- call (PostCastWithRateLimit castContent) ;;
     ts <- Date_now ;;
     call (RecordSocialPost
             (SocialPost.mk FARCASTER castHash castContent TRADE_EXIT
                (Some (Trade.id tradeToClose)) ts)))
    (fun _ => ret tt).

(** One turn of the loop of lines 185-362 on the local counters
    [(executed, skipped)]. *)
Definition executeDecision (marketPrices : PriceMap) (decision : Decision.t)
    (counters : Z * Z) : M (Z * Z) :=
  let (executed, skipped) := counters in
  match Decision.action decision with
  | HOLD => ret (executed, skipped + 1)
  | BUY =>
      try_catch
        (executeBuy decision marketPrices ;; ret (executed + 1, skipped))
        (fun _ => ret (executed, skipped))
  | SELL =>
      try_catch
        (openTrades <- call GetOpenTrades ;;
         let tradeToClose :=
           find (fun t => (Trade.market_id t =? Decision.marketId decision)%string)
                openTrades in
         match tradeToClose with
         | Some t => closeTrade decision t ;; ret (executed + 1, skipped)
         | None => ret (executed, skipped)
         end)
        (fun _ => ret (executed, skipped))
  end.

Definition executeTradingDecisions (decisions : list Decision.t)
    (marketPrices : PriceMap) : M Z :=
  counters <- for_fold decisions (0, 0) (executeDecision marketPrices) ;;
  ret (fst counters).

(** ** Lines 370-440: [postDailySummary] *)

(** [t.pnl_bps || 0]. *)
Definition pnl_or_zero (t : Trade.t) : float :=
  match Trade.pnl_bps t with
  | Some v => if JS.truthy_num v then v else 0%float
  | None => 0%float
  end.

Definition postDailySummary : M unit :=
  now <- Date_now ;;
  last <- get_lastDailySummary ;;
  if now - last <? DAILY_SUMMARY_INTERVAL then ret tt
  else
    try_catch
      (balance <- call GetBalance ;;
       let totalValue := weiToEth balance in
       openTrades <- call GetOpenTrades ;;
       allTrades <- call (GetAllTrades 100) ;;
       today0 <- Date_now ;;
       let today := startOfLocalDay today0 in
       let tradesToday :=
         filter (fun t => today <=? Trade.entry_timestamp t) allTrades in
       let dailyPnlBps :=
         fold_left (fun sum t => (sum + pnl_or_zero t)%float) tradesToday 0%float in
       let summaryParams :=
         SummaryParams.mk totalValue dailyPnlBps
           (Z.of_nat (List.length tradesToday))
           (Z.of_nat (List.length openTrades)) in
       try_catch
         (tweetContent <- call (GenerateDailySummaryForPlatform summaryParams TWITTER) ;;
          tweetId <- call (PostTweetWithRateLimit tweetContent) ;;
          if JS.truthy tweetId then
            ts <- Date_now ;;
            call (RecordSocialPost
                    (SocialPost.mk TWITTER tweetId tweetContent DAILY_SUMMARY
                       None ts))
          else ret tt)
         (fun _ => ret tt) ;;
       try_catch
         (castContent <- call (GenerateDailySummaryForPlatform summaryParams FARCASTER) ;;
          castHash <- call (PostCastWithRateLimit castContent) ;;
          ts <- Date_now ;;
          call (RecordSocialPost
                  (SocialPost.mk FARCASTER castHash castContent DAILY_SUMMARY
                     None ts)))
         (fun _ => ret tt) ;;
       ts <- Date_now ;;
       call (CreatePortfolioSnapshot
               (PortfolioSnapshot.mk ts totalValue
                  (Z.of_nat (List.length openTrades)) dailyPnlBps)) ;;
       put_lastDailySummary now)
      (fun _ => ret tt).

(** ** Lines 446-580: [runOneIteration] *)

(** Lines 463-476: the position views handed to the AI. *)
Definition positionView (trade : Trade.t) : M PositionView.t :=
  currentPrice <- call (GetMarketPrice (Trade.market_id trade)
                          (Trade.position trade)) ;;
  let pnlBps :=
    JS.Math_round
      (((currentPrice - Trade.entry_price trade) / Trade.entry_price trade)
       * 10000)%float in
  ret (PositionView.mk (Trade.market_id trade) (Trade.market_name trade)
         (Trade.position trade) (Trade.entry_price trade) currentPrice pnlBps).

Definition openPositionsWithPrices (openTrades : list Trade.t)
  : M (list PositionView.t) :=
  promise_all_map (Env.settles_first env) positionView openTrades.

(** Lines 499-528. *)
Definition postCommentary (analysis : Analysis.t) : M unit :=
  if JS.truthy (Analysis.marketCommentary analysis) then
    let commentary :=
      match Analysis.marketCommentary analysis with
      | Some c => c
      | None => ""%string
      end in
    try_catch
      (ts <- Date_now ;;
       reflection <- call (GenerateMarketReflectionPostForPlatform
                             (ReflectionParams.mk commentary
                                (Analysis.riskAssessment analysis)
                                (Analysis.portfolioRecommendation analysis) ts)
                             TWITTER) ;;
       call (PostTweetWithRateLimit reflection) ;; ret tt)
      (fun _ => ret tt) ;;
    try_catch
      (ts <- Date_now ;;
       castContent <- call (GenerateMarketReflectionPostForPlatform
                              (ReflectionParams.mk commentary
                                 (Analysis.riskAssessment analysis)
                                 (Analysis.portfolioRecommendation analysis) ts)
                              FARCASTER) ;;
       call (PostCastWithRateLimit castContent) ;; ret tt)
      (fun _ => ret tt)
  else ret tt.

(** Lines 540-559. *)
Definition postRoundSummary (roundParams : RoundParams.t) : M unit :=
  try_catch
    (if negb (JS.truthy (Config.farcaster_signerUuid config)) then ret tt
     else
       castContent <- call (GenerateRoundSummaryForPlatform roundParams FARCASTER) ;;
       call (PostCastWithRateLimit castContent) ;; ret tt)
    (fun _ => ret tt).

(** Lines 561-572. *)
Definition tipDisbursement : M unit :=
  now <- Date_now ;;
  last <- get_lastTipTime ;;
  if negb (Config.disableTips config)
     && (Config.tipIntervalMs config <=? now - last)
  then
    recipient <- pickTipRecipient ;;
    if JS.truthy recipient then
      let r := match recipient with Some a => a | None => ""%string end in
      try_catch
        (call (SendTip r (Config.tipAmountEth config)) ;;
         put_lastTipTime now)
        (fun _ => ret tt)
    else ret tt
  else ret tt.

(** Lines 494-575: what follows the answer of the AI. *)
Definition afterAnalysis (portfolioValue : float) (openTrades : list Trade.t)
    (marketData : MarketData.t) (analysis : Analysis.t) : M IterationResult.t :=
  postCommentary analysis ;;
  let priceMap : PriceMap :=
    map (fun m => (Market.id m,
                   PriceSnapshot.mk (Market.yesPrice m) (Market.noPrice m)))
        (MarketData.markets marketData) in
  tradesExecuted <- executeTradingDecisions (Analysis.decisions analysis) priceMap ;;
  call ProcessNotableTrades ;;
  processMentions ;;
  postDailySummary ;;
  postRoundSummary
    (RoundParams.mk portfolioValue
       (Z.of_nat (List.length openTrades))
       (Z.of_nat (List.length (MarketData.markets marketData)))
       (Z.of_nat (List.length (Analysis.decisions analysis)))
       tradesExecuted
       (match Analysis.marketCommentary analysis with
        | Some c => JS.trim_nonempty c
        | None => false
        end)) ;;
  tipDisbursement ;;
  ret (IterationResult.mk true "Iteration complete").

(** Lines 456-575: what follows a passed health check. *)
Definition iterationBody : M IterationResult.t :=
  marketData <- call FetchMarkets ;;
  balance <- call GetBalance ;;
  let portfolioValue := weiToEth balance in
  openTrades <- call GetOpenTrades ;;
  positions <- openPositionsWithPrices openTrades ;;
  headlines <- call (FetchNewsHeadlines 5) ;;
  let newsContext := map Headline.title headlines in
  analysis <- call (AnalyzeMarkets portfolioValue positions
                      (map (fun m => Market.mk (Market.id m) (Market.name m)
                                       (Market.yesPrice m) (Market.noPrice m)
                                       (Market.volume24h m))
                           (MarketData.markets marketData))
                      newsContext) ;;
  afterAnalysis portfolioValue openTrades marketData analysis.

Definition runOneIteration : M IterationResult.t :=
  try_catch
    (healthy <- healthCheck ;;
     if negb healthy
     then ret (IterationResult.mk false "Health check failed")
     else iterationBody)
    (fun error => ret (IterationResult.mk false error)).

End Orchestrator.

(** The events a computation added to the trace, oldest first. *)
Definition events_since (w w' : World.t) : list Event :=
  rev (firstn (List.length (World.trace w') - List.length (World.trace w))
         (World.trace w')).

(* ================================================================== *)
(** * The process: scheduler loop and signal handlers *)
(* ================================================================== *)

(** Lines 595-611 and 677-687.  Node runs one piece of JavaScript at a time: a
    signal handler runs only while the main code is suspended at an [await].
    The process is therefore a machine whose states are the suspension points
    of [autonomousLoop], resumed either by the awaited promise or by the
    delivery of a signal.  Inside an iteration the machine advances one event
    at a time; it lets a handler run before any event, which covers every
    moment at which Node can run it (the iteration is suspended before each of
    its awaited calls).  [main] is reduced to what matters for the loop: it
    raises the flag and enters the loop; a rejection that escapes the loop
    ends the process with code 1. *)
Module Process.

Inductive Phase :=
  (** about to evaluate the condition of [while (isRunning)] *)
  | LoopHead
  (** suspended inside [runOneIteration]: the events still to happen, oldest
      first, and the world the iteration ends in *)
  | InIteration (pending : list Event) (final : World.t)
  (** suspended in [await sleep(config.loopIntervalMs)] *)
  | Sleeping
  (** the process is gone *)
  | Exited (code : Z).

Record t := mk { world : World.t; phase : Phase }.

Inductive Input :=
  | Resume
  | Deliver (s : Signal).

(** [process.exit(code)]: nothing runs afterwards. *)
Definition process_exit (code : Z) (p : t) : t := mk (world p) (Exited code).

(** The two handlers of lines 677-687 have the same body:
    [isRunning = false; process.exit(0)]. *)
Definition onSignal (s : Signal) (p : t) : t :=
  match s with
  | SIGINT => process_exit 0 (mk (set_isRunning false (world p)) (phase p))
  | SIGTERM => process_exit 0 (mk (set_isRunning false (world p)) (phase p))
  end.

Section Loop.

Variable config : Config.t.
Variable env : Env.t.
Variable weiToEth : Z -> float.
Variable numToString : float -> string.
Variable startOfLocalDay : Z -> Z.

(** Line 668: [isRunning = true; await autonomousLoop()]. *)
Definition start (w : World.t) : t := mk (set_isRunning true w) LoopHead.

(** The promise the main code awaits is settled. *)
Definition resume (p : t) : t :=
  match phase p with
  | LoopHead =>
      if isRunning (world p) then
        let w' := snd (runOneIteration config env weiToEth numToString
                         startOfLocalDay (world p)) in
        mk (world p) (InIteration (events_since (world p) w') w')
      else
        (* the loop and [main] return; nothing is left to run *)
        process_exit 0 p
  | InIteration (e :: pending) final =>
      mk (push e (world p)) (InIteration pending final)
  | InIteration [] final =>
      (* the iteration returns; its writes to the timers are in [final];
         [await sleep(config.loopIntervalMs)] *)
      mk (set_isRunning (isRunning (world p)) final) Sleeping
  | Sleeping =>
      (* [sleep] settles; a rejection reaches the [catch] of [main]:
         [process.exit(1)] *)
      let c := Sleep (Config.loopIntervalMs config) in
      let r := Env.respond env (World.trace (world p)) c in
      mk (push (Ev c r) (world p))
         (match r with inr _ => LoopHead | inl _ => Exited 1 end)
  | Exited code => p
  end.

(** A signal that arrives while the loop head runs is handled at the next
    suspension point. *)
Definition step (i : Input) (p : t) : t :=
  match i, phase p with
  | _, Exited _ => p
  | Resume, _ => resume p
  | Deliver s, LoopHead => onSignal s (resume p)
  | Deliver s, _ => onSignal s p
  end.

Definition run (inputs : list Input) (p : t) : t :=
  fold_left (fun q i => step i q) inputs p.

(** The main code is suspended at an [await]. *)
Definition suspended (p : t) : bool :=
  match phase p with
  | InIteration _ _ | Sleeping => true
  | LoopHead | Exited _ => false
  end.

(** What the iteration in progress still has to do. *)
Definition pending (p : t) : list Event :=
  match phase p with
  | InIteration events _ => events
  | _ => []
  end.

(** The same process with another value of the flag. *)
Definition with_flag (b : bool) (p : t) : t :=
  mk (set_isRunning b (world p)) (phase p).

End Loop.

End Process.

(* ================================================================== *)
(** * Reading traces *)
(* ================================================================== *)

(** [since Q h0 h]: the history [h] continues [h0], and every event added to
    [h0] satisfies [Q], given the history it happened in. *)
Inductive since (Q : History -> Event -> Prop) (h0 : History) : History -> Prop :=
  | since_refl : since Q h0 h0
  | since_step e h : since Q h0 h -> Q h e -> since Q h0 (e :: h).

(** A computation that takes every world [w] to a world related to [w]. *)
Definition moves {A} (R : World.t -> World.t -> Prop) (m : M A) : Prop :=
  forall w, R w (snd (m w)).

(** The trace is continued by events that satisfy [Q]. *)
Definition continues (Q : History -> Event -> Prop) (w w' : World.t) : Prop :=
  since Q (World.trace w) (World.trace w').

(** A computation all of whose events satisfy [Q], from every world. *)
Definition emits {A} (Q : History -> Event -> Prop) (m : M A) : Prop :=
  moves (continues Q) m.

(** ** Kinds of events *)

(** Calls to the AI collaborator ([ai/analyzer]) and to the trading
    collaborator ([blockchain/trades]). *)
Definition is_ai_or_trading (e : Event) : bool :=
  match e with
  | Ev c _ =>
      match c with
      | AnalyzeMarkets _ _ _ _ | GenerateReply _
      | ExecuteTrade _ | ClosePosition _ _ _ _ _ _ | GetMarketPrice _ _ => true
      | _ => false
      end
  | _ => false
  end.

Definition is_AnalyzeMarkets (e : Event) : bool :=
  match e with
  | Ev c _ => match c with AnalyzeMarkets _ _ _ _ => true | _ => false end
  | _ => false
  end.


Definition failed (e : Event) : bool :=
  match e with
  | Ev _ (inl _) => true
  | _ => false
  end.

Definition is_SendTip (e : Event) : bool :=
  match e with
  | Ev c _ => match c with SendTip _ _ => true | _ => false end
  | _ => false
  end.


(** ** The SELL execution *)

(** The patch most recently handed to [updateTrade]. *)
Fixpoint latest_update (h : History) : option TradePatch.t :=
  match h with
  | [] => None
  | e :: rest =>
      match e with
      | Ev c _ =>
          match c with
          | UpdateTrade _ patch => Some patch
          | _ => latest_update rest
          end
      | _ => latest_update rest
      end
  end.

(** What precedes a call [updateTrade(id, patch)]: the open trades were read,
    [t] is the first of them on the decision's market, its current price was
    fetched, the position was closed, and the patch holds that price, the
    result of the close and the P&L of the formula. *)
Definition sell_update_justified (h : History) (id : string)
    (patch : TradePatch.t) : Prop :=
  exists trades t marketId currentPrice amountUsd result rest,
    h = Ev (ClosePosition (Trade.market_name t) (Trade.position t)
              (Trade.entry_price t) currentPrice amountUsd (Trade.market_id t))
           (inr result)
        :: Ev (GetMarketPrice marketId (Trade.position t)) (inr currentPrice)
        :: Ev GetOpenTrades (inr trades)
        :: rest
    /\ find (fun t' => (Trade.market_id t' =? marketId)%string) trades = Some t
    /\ id = Trade.id t
    /\ patch = TradePatch.mk currentPrice (CloseResult.txHash result)
                 (CloseResult.timestamp result)
                 (pnlBpsOf currentPrice (Trade.entry_price t)) CLOSED.

Definition update_is_justified (h : History) (e : Event) : Prop :=
  match e with
  | Ev c _ =>
      match c with
      | UpdateTrade id patch => sell_update_justified h id patch
      | _ => True
      end
  | _ => True
  end.

(** The parameters of an exit post repeat the persisted P&L and carry the
    reason [exitReasonOf] gives for it. *)
Definition exit_reason_classified (config : Config.t) (h : History)
    (e : Event) : Prop :=
  match e with
  | Ev c _ =>
      match c with
      | GenerateTradeExitPostForPlatform p _ =>
          exists patch,
            latest_update h = Some patch
            /\ ExitPostParams.pnlBps p = TradePatch.pnl_bps patch
            /\ ExitPostParams.exitReason p
               = exitReasonOf config (TradePatch.pnl_bps patch)
      | _ => True
      end
  | _ => True
  end.

(** The parameters of an exit post carry the amount 0.1; the patch written
    to the trade is the one [sell_update_justified] describes. *)
Definition exit_amount_is_placeholder (h : History) (e : Event) : Prop :=
  match e with
  | Ev c _ =>
      match c with
      | GenerateTradeExitPostForPlatform p _ =>
          ExitPostParams.amountEth p = num_0_1
      | UpdateTrade id patch => sell_update_justified h id patch
      | _ => True
      end
  | _ => True
  end.

(** Everything the SELL branch promises about its own events. *)
Definition sell_events_ok (config : Config.t) (h : History) (e : Event) : Prop :=
  update_is_justified h e
  /\ exit_reason_classified config h e
  /\ exit_amount_is_placeholder h e.


(** ** The daily digest *)






(** ** The tip *)

(** A successful [sendTip]. *)
Definition is_tip_sent (e : Event) : bool := is_SendTip e && negb (failed e).

(** The last thing that happened is a successful [sendTip]; the answer is the
    time read at the gate, two events earlier (the draw of the recipient lies
    in between). *)
Definition tip_sent_at (h : History) : option Z :=
  match h with
  | e :: rest =>
      if is_tip_sent e then
        match rest with
        | EvRandom _ :: EvClock now :: _ => Some now
        | _ => None
        end
      else None
  | [] => None
  end.

(** The tip timer is untouched and no tip has just been sent. *)
Definition no_tip (w w' : World.t) : Prop :=
  lastTipTime w' = lastTipTime w
  /\ (tip_sent_at (World.trace w) = None -> tip_sent_at (World.trace w') = None).


(** The outcome of an iteration for the tip timer, read off the trace it
    leaves: the timer holds the gate time of the tip just sent, if one was
    just sent, and its old value otherwise; a tip is sent only through the
    gate. *)
Definition tip_outcome (config : Config.t) (w0 w' : World.t) : Prop :=
  lastTipTime w' =
    match tip_sent_at (World.trace w') with
    | Some now => now
    | None => lastTipTime w0
    end
  /\ (forall now, tip_sent_at (World.trace w') = Some now ->
      Config.disableTips config = false
      /\ Config.tipIntervalMs config <= now - lastTipTime w0).


(** ** The position reconciliation *)







(** ** The mention responder *)

(** The mention [(pf', id')] is the mention [(pf, id)]. *)
Definition same_mention (pf : Platform) (id : string) (pf' : Platform)
    (id' : string) : bool :=
  Platform_eqb pf' pf && (id' =? id)%string.

(** A successful [recordMention] of the mention [(pf, id)]. *)
Definition is_recorded (pf : Platform) (id : string) (e : Event) : bool :=
  match e with
  | Ev c _ =>
      match c with
      | RecordMention m =>
          same_mention pf id (NewMention.platform m) (NewMention.mention_id m)
          && negb (failed e)
      | _ => false
      end
  | _ => false
  end.

Definition recorded (pf : Platform) (id : string) (h : History) : bool :=
  existsb (is_recorded pf id) h.

(** A reply sent on the platform to the mention [(pf, id)]. *)
Definition is_reply_to (pf : Platform) (id : string) (e : Event) : bool :=
  match e with
  | Ev c _ =>
      match c with
      | ReplyToTweet i _ => same_mention pf id TWITTER i
      | ReplyToCast i _ => same_mention pf id FARCASTER i
      | _ => false
      end
  | _ => false
  end.

Definition replies_to (pf : Platform) (id : string) (h : History) : nat :=
  List.length (filter (is_reply_to pf id) h).

Definition is_GenerateReply (e : Event) : bool :=
  match e with
  | Ev c _ => match c with GenerateReply _ => true | _ => false end
  | _ => false
  end.

(** The calls to [generateReply] made for the mention [(pf, id)]: those that
    directly follow its successful recording. *)
Fixpoint generations_for (pf : Platform) (id : string) (h : History) : nat :=
  match h with
  | [] => 0
  | e :: rest =>
      ((if is_GenerateReply e
           && match rest with
              | e' :: _ => is_recorded pf id e'
              | [] => false
              end
        then 1 else 0)
       + generations_for pf id rest)%nat
  end.

(** Every [generateReply] directly follows the successful recording of the
    mention it answers, and every platform reply directly follows the
    generation of its text. *)
Definition reply_follows_record (h : History) (e : Event) : Prop :=
  match e with
  | Ev c _ =>
      match c with
      | GenerateReply text =>
          exists m rest,
            h = Ev (RecordMention m) (inr tt) :: rest
            /\ NewMention.content m = text
      | ReplyToTweet i reply =>
          exists m text rest,
            h = Ev (GenerateReply text) (inr reply)
                :: Ev (RecordMention m) (inr tt) :: rest
            /\ NewMention.content m = text
            /\ NewMention.platform m = TWITTER
            /\ NewMention.mention_id m = i
      | ReplyToCast i reply =>
          exists m text rest,
            h = Ev (GenerateReply text) (inr reply)
                :: Ev (RecordMention m) (inr tt) :: rest
            /\ NewMention.content m = text
            /\ NewMention.platform m = FARCASTER
            /\ NewMention.mention_id m = i
      | _ => True
      end
  | _ => True
  end.

(** Modelled from the spec: the persistence collaborator
    ([database/queries], not part of the sources at hand) keeps the mention
    records, and the responder checks each mention "against persisted mention
    records by (platform, mention_id)": a mention whose [recordMention]
    succeeded is found by the test of the responder in every later answer of
    [getUnprocessedMentions]. *)
Definition mention_store_faithful (env : Env.t) : Prop :=
  forall (h : History) (rows : list Mention.t) (pf : Platform) (id : string),
    Env.respond env h GetUnprocessedMentions = inr rows ->
    recorded pf id h = true ->
    existsb (fun m => (Mention.mention_id m =? id)%string
                      && Platform_eqb (Mention.platform m) pf) rows = true.

(** What a piece of the responder may do about the mention [(pf, id)]: if it
    is already recorded, nothing; otherwise at most one generation and one
    reply, and then it is recorded. *)
Definition answers_once (pf : Platform) (id : string) (w w' : World.t) : Prop :=
  let h := World.trace w in
  let h' := World.trace w' in
  (recorded pf id h = true ->
   recorded pf id h' = true
   /\ generations_for pf id h' = generations_for pf id h
   /\ replies_to pf id h' = replies_to pf id h)
  /\ (recorded pf id h = false ->
      (generations_for pf id h' = generations_for pf id h
       /\ replies_to pf id h' = replies_to pf id h)
      \/ (recorded pf id h' = true
          /\ (generations_for pf id h' <= generations_for pf id h + 1)%nat
          /\ (replies_to pf id h' <= replies_to pf id h + 1)%nat)).


(** ** The social fan-out *)

(** The platform and post id of every social post that was persisted, newest
    first. *)
Fixpoint recorded_posts (h : History) : list (Platform * option string) :=
  match h with
  | [] => []
  | e :: rest =>
      match e with
      | Ev c _ =>
          match c with
          | RecordSocialPost p =>
              if failed e then recorded_posts rest
              else (SocialPost.platform p, SocialPost.post_id p)
                   :: recorded_posts rest
          | _ => recorded_posts rest
          end
      | _ => recorded_posts rest
      end
  end.

(** What precedes a call [recordSocialPost(p)] in the decision executor: the
    post was just published on the platform of [p], and [p] carries the id
    the platform returned.  On Twitter that id is a non-empty string; on
    Farcaster it is whatever the platform returned. *)
Definition record_follows_publish (h : History) (e : Event) : Prop :=
  match e with
  | Ev c _ =>
      match c with
      | RecordSocialPost p =>
          match SocialPost.platform p with
          | TWITTER =>
              JS.truthy (SocialPost.post_id p) = true
              /\ exists content ts rest,
                   h = EvClock ts
                       :: Ev (PostTweetWithRateLimit content)
                            (inr (SocialPost.post_id p))
                       :: rest
          | FARCASTER =>
              exists content ts rest,
                h = EvClock ts
                    :: Ev (PostCastWithRateLimit content)
                         (inr (SocialPost.post_id p))
                    :: rest
          end
      | _ => True
      end
  | _ => True
  end.

(* ================================================================== *)
(** * Further properties of the orchestrator *)
(* ================================================================== *)

(** A computation that never throws, whatever the collaborators do. *)
Definition never_throws {A} (m : M A) : Prop :=
  forall w, exists a, fst (m w) = inr a.

(** A computation that returns [v] whenever it returns. *)
Definition returns {A} (v : A) (m : M A) : Prop :=
  forall w a, fst (m w) = inr a -> a = v.

(** The number of events of a kind in a history. *)
Definition occurrences (p : Event -> bool) (h : History) : nat :=
  List.length (filter p h).

(** No event of the kind [p] is added. *)
Definition adds_none (p : Event -> bool) (w w' : World.t) : Prop :=
  occurrences p (World.trace w') = occurrences p (World.trace w).

(** A successful [processNotableTrades]. *)
Definition is_notable_processed (e : Event) : bool :=
  match e with
  | Ev c _ => match c with ProcessNotableTrades => negb (failed e) | _ => false end
  | _ => false
  end.

(** The outcome and the world a computation leaves satisfy [Q]. *)
Definition wp {A} (m : M A) (Q : Exn + A -> World.t -> Prop) (w : World.t)
    : Prop :=
  Q (fst (m w)) (snd (m w)).

(** ** Counting what the decision executor does *)

Definition is_ExecuteTrade (e : Event) : bool :=
  match e with
  | Ev c _ => match c with ExecuteTrade _ => true | _ => false end
  | _ => false
  end.

Definition is_GetOpenTrades (e : Event) : bool :=
  match e with
  | Ev c _ => match c with GetOpenTrades => true | _ => false end
  | _ => false
  end.

Definition is_ClosePosition (e : Event) : bool :=
  match e with
  | Ev c _ => match c with ClosePosition _ _ _ _ _ _ => true | _ => false end
  | _ => false
  end.

Definition is_CreateTrade (e : Event) : bool :=
  match e with
  | Ev c _ => match c with CreateTrade _ => true | _ => false end
  | _ => false
  end.

Definition is_UpdateTrade (e : Event) : bool :=
  match e with
  | Ev c _ => match c with UpdateTrade _ _ => true | _ => false end
  | _ => false
  end.

(** A trade that was opened, a trade that was closed, in the database. *)
Definition is_trade_opened (e : Event) : bool := is_CreateTrade e && negb (failed e).
Definition is_trade_closed (e : Event) : bool := is_UpdateTrade e && negb (failed e).

(** An attempt to write the entry post, the exit post, for a platform. *)
Definition is_entry_post (pf : Platform) (e : Event) : bool :=
  match e with
  | Ev c _ =>
      match c with
      | GenerateTradeEntryPostForPlatform _ pf' => Platform_eqb pf' pf
      | _ => false
      end
  | _ => false
  end.

Definition is_exit_post (pf : Platform) (e : Event) : bool :=
  match e with
  | Ev c _ =>
      match c with
      | GenerateTradeExitPostForPlatform _ pf' => Platform_eqb pf' pf
      | _ => false
      end
  | _ => false
  end.

Definition is_buy (d : Decision.t) : bool :=
  match Decision.action d with BUY => true | _ => false end.
Definition is_sell (d : Decision.t) : bool :=
  match Decision.action d with SELL => true | _ => false end.
Definition is_hold (d : Decision.t) : bool :=
  match Decision.action d with HOLD => true | _ => false end.

(** An order that went through, a position that was closed, on chain. *)
Definition is_order_filled (e : Event) : bool := is_ExecuteTrade e && negb (failed e).
Definition is_position_closed (e : Event) : bool := is_ClosePosition e && negb (failed e).

Definition bnat (b : bool) : nat := if b then 1%nat else 0%nat.

(** What one turn of the executor, or a whole batch with [buys] BUY and
    [sells] SELL decisions, adds to the history, newest first, and to the
    counter of executed decisions. *)
Definition executor_news (buys sells executed : nat) (news : History) : Prop :=
  occurrences is_ExecuteTrade news = buys
  /\ occurrences is_CreateTrade news = occurrences is_order_filled news
  /\ occurrences is_GetOpenTrades news = sells
  /\ (occurrences is_ClosePosition news <= sells)%nat
  /\ occurrences is_UpdateTrade news = occurrences is_position_closed news
  /\ executed
     = (occurrences is_trade_opened news + occurrences is_trade_closed news)%nat
  /\ occurrences (is_entry_post TWITTER) news = occurrences is_trade_opened news
  /\ occurrences (is_entry_post FARCASTER) news = occurrences is_trade_opened news
  /\ occurrences (is_exit_post TWITTER) news = occurrences is_trade_closed news
  /\ occurrences (is_exit_post FARCASTER) news = occurrences is_trade_closed news.

(** The result of the loop without the counter of skipped decisions, which
    [executeTradingDecisions] only logs. *)
Definition drop_skipped (r : Exn + Z * Z) : Exn + Z :=
  match r with
  | inl e => inl e
  | inr counters => inr (fst counters)
  end.

(** ** What a BUY writes *)

(** The order a BUY decision asks for: the decision's market, position and
    amount, and as expected price the price of that position in the snapshot
    the map holds for the market, 5000 when it holds none. *)
Definition order_of (marketPrices : PriceMap) (d : Decision.t) : TradeRequest.t :=
  TradeRequest.mk (Decision.marketId d) (Decision.marketName d)
    (Decision.position d) (Decision.amountEth d)
    (match Map_get marketPrices (Decision.marketId d) with
     | Some snapshot =>
         match Decision.position d with
         | YES => PriceSnapshot.yesPrice snapshot
         | NO => PriceSnapshot.noPrice snapshot
         end
     | None => 5000%float
     end).

(** The row written for an order [req] that the chain answered with
    [result]. *)
Definition row_of (config : Config.t) (req : TradeRequest.t)
    (result : TradeResult.t) : NewTrade.t :=
  NewTrade.mk
    (match TradeResult.resolvedMarketId result with
     | Some slug => slug
     | None => TradeRequest.marketId req
     end)
    (TradeRequest.marketName req) (TradeRequest.position req)
    (TradeRequest.amountEth req)
    (TradeRequest.amountEth req * Config.ethUsdPrice config)%float
    (TradeResult.actualPrice result) (TradeResult.txHash result)
    (TradeResult.timestamp result) OPEN.

(** The order that most recently went through, with the answer of the chain;
    the trade row most recently created. *)
Fixpoint latest_fill (h : History) : option (TradeRequest.t * TradeResult.t) :=
  match h with
  | [] => None
  | e :: rest =>
      match e with
      | Ev c r =>
          match c in Call A return (Exn + A -> _) with
          | ExecuteTrade req =>
              fun r => match r with
                       | inr result => Some (req, result)
                       | inl _ => latest_fill rest
                       end
          | _ => fun _ => latest_fill rest
          end r
      | _ => latest_fill rest
      end
  end.

Fixpoint latest_created (h : History) : option Trade.t :=
  match h with
  | [] => None
  | e :: rest =>
      match e with
      | Ev c r =>
          match c in Call A return (Exn + A -> _) with
          | CreateTrade _ =>
              fun r => match r with
                       | inr trade => Some trade
                       | inl _ => latest_created rest
                       end
          | _ => fun _ => latest_created rest
          end r
      | _ => latest_created rest
      end
  end.

(** What the BUY branch promises about its own events: the order is the one
    of a BUY decision of the batch; the row written follows at once an order
    that went through and stores the answer of the chain; the entry posts
    repeat that answer; the posts recorded point to the row created. *)
Definition buy_events_ok (config : Config.t) (decisions : list Decision.t)
    (marketPrices : PriceMap) (h : History) (e : Event) : Prop :=
  match e with
  | Ev c _ =>
      match c with
      | ExecuteTrade req =>
          exists d, In d decisions /\ Decision.action d = BUY
                    /\ req = order_of marketPrices d
      | CreateTrade row =>
          exists req result rest,
            h = Ev (ExecuteTrade req) (inr result) :: rest
            /\ row = row_of config req result
      | GenerateTradeEntryPostForPlatform p _ =>
          exists req result,
            latest_fill h = Some (req, result)
            /\ EntryPostParams.marketName p = TradeRequest.marketName req
            /\ EntryPostParams.position p = TradeRequest.position req
            /\ EntryPostParams.amountEth p = TradeRequest.amountEth req
            /\ EntryPostParams.price p = TradeResult.actualPrice result
            /\ EntryPostParams.txHash p = TradeResult.txHash result
      | RecordSocialPost p =>
          match SocialPost.post_type p with
          | TRADE_ENTRY =>
              exists trade,
                latest_created h = Some trade
                /\ SocialPost.related_trade_id p = Some (Trade.id trade)
          | _ => True
          end
      | _ => True
      end
  | _ => True
  end.

(** ** The iteration as a whole *)

(** The analysis, an order, a close, or a write to the trades. *)
Definition is_trading (e : Event) : bool :=
  is_AnalyzeMarkets e || is_ExecuteTrade e || is_CreateTrade e
  || is_ClosePosition e || is_UpdateTrade e.

Definition quiet (news : History) : Prop :=
  Forall (fun e => is_trading e = false) news.

(** The template of the round summary. *)
Definition is_round_summary (e : Event) : bool :=
  match e with
  | Ev c _ =>
      match c with GenerateRoundSummaryForPlatform _ _ => true | _ => false end
  | _ => false
  end.

Definition no_round_summary (news : History) : Prop :=
  Forall (fun e => is_round_summary e = false) news.

(** What an iteration does once the AI has answered [analysis]. *)
Definition trades_as_decided (analysis : Analysis.t) (news : History) : Prop :=
  occurrences is_AnalyzeMarkets news = 0%nat
  /\ occurrences is_ExecuteTrade news
     = List.length (filter is_buy (Analysis.decisions analysis))
  /\ occurrences is_CreateTrade news = occurrences is_order_filled news
  /\ (occurrences is_ClosePosition news
      <= List.length (filter is_sell (Analysis.decisions analysis)))%nat
  /\ occurrences is_UpdateTrade news = occurrences is_position_closed news.

(** A round summary is written for Farcaster, from figures that satisfy
    [P]. *)
Definition round_summary_is (P : RoundParams.t -> Prop) (e : Event) : Prop :=
  match e with
  | Ev c _ =>
      match c with
      | GenerateRoundSummaryForPlatform p pf => pf = FARCASTER /\ P p
      | _ => True
      end
  | _ => True
  end.

(** The figures of the round: the portfolio value, positions and markets that
    were handed to the AI, the decisions it answered, and the trades persisted
    since. *)
Definition round_figures (portfolioValue : float) (positions markets : nat)
    (analysis : Analysis.t) (after : History) (p : RoundParams.t) : Prop :=
  RoundParams.portfolioEth p = portfolioValue
  /\ RoundParams.openPositions p = Z.of_nat positions
  /\ RoundParams.marketsScanned p = Z.of_nat markets
  /\ RoundParams.decisionsCount p
     = Z.of_nat (List.length (Analysis.decisions analysis))
  /\ RoundParams.tradesExecuted p
     = Z.of_nat (occurrences is_trade_opened after
                 + occurrences is_trade_closed after)
  /\ RoundParams.hasCommentary p
     = match Analysis.marketCommentary analysis with
       | Some c => JS.trim_nonempty c
       | None => false
       end.

(** The map [executeTradingDecisions] is handed: from the id of a market to
    its two prices. *)
Definition price_map (markets : list Market.t) : PriceMap :=
  map (fun m => (Market.id m,
                 PriceSnapshot.mk (Market.yesPrice m) (Market.noPrice m)))
      markets.

(** An order is the order of a BUY decision among [decisions], priced from
    [marketPrices]. *)
Definition order_from (marketPrices : PriceMap) (decisions : list Decision.t)
    (e : Event) : Prop :=
  match e with
  | Ev c _ =>
      match c with
      | ExecuteTrade req =>
          exists d, In d decisions /\ Decision.action d = BUY
                    /\ req = order_of marketPrices d
      | _ => True
      end
  | _ => True
  end.

(** The events of an iteration, newest first: nothing was traded, or the
    analysis failed, or the events split at the one analysis that
    succeeded. *)
Definition iteration_news (news : History) : Prop :=
  (quiet news /\ no_round_summary news)
  \/ (exists before pv ps ms nc error,
        news = Ev (AnalyzeMarkets pv ps ms nc) (inl error) :: before
        /\ quiet before /\ no_round_summary before)
  \/ exists before after pv ps ms nc analysis,
       news = after ++ Ev (AnalyzeMarkets pv ps ms nc) (inr analysis) :: before
       /\ quiet before /\ no_round_summary before
       /\ trades_as_decided analysis after
       /\ (occurrences is_round_summary after <= 1)%nat
       /\ Forall (round_summary_is
                    (round_figures pv (List.length ps) (List.length ms)
                       analysis after)) after
       /\ Forall (order_from (price_map ms) (Analysis.decisions analysis)) after.

(** ** Tips *)

(** A tip goes to one of the configured recipients, in the configured amount,
    and only when tips are not disabled. *)
Definition tip_as_configured (config : Config.t) (h : History) (e : Event)
    : Prop :=
  match e with
  | Ev c _ =>
      match c with
      | SendTip recipient amountEth =>
          In recipient (Config.tipRecipients config)
          /\ recipient <> ""%string
          /\ amountEth = Config.tipAmountEth config
          /\ Config.disableTips config = false
      | _ => True
      end
  | _ => True
  end.

(** ** The life of the process *)

(** The last thing that happened is a [sleep] that rejected. *)
Definition sleep_rejected (h : History) : Prop :=
  exists ms error rest, h = Ev (Sleep ms) (inl error) :: rest.

(** A process that runs has its flag up; one that is gone with code 1 was
    ended by a [sleep] that rejected. *)
Definition running_or_failed (p : Process.t) : Prop :=
  match Process.phase p with
  | Process.Exited code =>
      code = 1 /\ sleep_rejected (World.trace (Process.world p))
  | _ => isRunning (Process.world p) = true
  end.

(** ** The figures of the digest *)

(** The figures most recently handed to the template of the daily summary. *)
Fixpoint latest_summary (h : History) : option SummaryParams.t :=
  match h with
  | [] => None
  | e :: rest =>
      match e with
      | Ev c _ =>
          match c with
          | GenerateDailySummaryForPlatform p _ => Some p
          | _ => latest_summary rest
          end
      | _ => latest_summary rest
      end
  end.

(** The digest is one set of figures: the cast is generated from the figures
    of the tweet, and the snapshot stores them. *)
Definition digest_is_consistent (h : History) (e : Event) : Prop :=
  match e with
  | Ev c _ =>
      match c with
      | GenerateDailySummaryForPlatform p FARCASTER => latest_summary h = Some p
      | CreatePortfolioSnapshot s =>
          exists p,
            latest_summary h = Some p
            /\ PortfolioSnapshot.total_value_eth s = SummaryParams.totalValue p
            /\ PortfolioSnapshot.open_positions_count s = SummaryParams.openPositions p
            /\ PortfolioSnapshot.daily_pnl_bps s = SummaryParams.dailyPnlBps p
      | _ => True
      end
  | _ => True
  end.

(** ** Counting what the mention responder does *)

Definition is_GetUnprocessedMentions (e : Event) : bool :=
  match e with
  | Ev c _ => match c with GetUnprocessedMentions => true | _ => false end
  | _ => false
  end.

Definition is_RecordMention (e : Event) : bool :=
  match e with
  | Ev c _ => match c with RecordMention _ => true | _ => false end
  | _ => false
  end.

(** A reply handed to a platform. *)
Definition is_reply (e : Event) : bool :=
  match e with
  | Ev c _ =>
      match c with ReplyToTweet _ _ | ReplyToCast _ _ => true | _ => false end
  | _ => false
  end.

Definition is_mention_recorded (e : Event) : bool := is_RecordMention e && negb (failed e).
Definition is_reply_generated (e : Event) : bool := is_GenerateReply e && negb (failed e).
Definition is_reply_sent (e : Event) : bool := is_reply e && negb (failed e).

(** What the processing of [n] fetched mentions of a platform adds to the
    history: every mention is looked up, and once more after its reply was
    sent; a reply is generated for every mention recorded, and sent for every
    reply generated. *)
Definition mentions_news (n : nat) (news : History) : Prop :=
  occurrences is_GetUnprocessedMentions news
  = (n + occurrences is_reply_sent news)%nat
  /\ (occurrences is_RecordMention news <= n)%nat
  /\ occurrences is_GenerateReply news = occurrences is_mention_recorded news
  /\ occurrences is_reply news = occurrences is_reply_generated news.

(** ** Commentary and alert *)

Definition is_RecordSocialPost (e : Event) : bool :=
  match e with
  | Ev c _ => match c with RecordSocialPost _ => true | _ => false end
  | _ => false
  end.

(** The template of the market reflection, for a platform. *)
Definition is_reflection (pf : Platform) (e : Event) : bool :=
  match e with
  | Ev c _ =>
      match c with
      | GenerateMarketReflectionPostForPlatform _ pf' => Platform_eqb pf' pf
      | _ => false
      end
  | _ => false
  end.

Definition is_PostTweet (e : Event) : bool :=
  match e with
  | Ev c _ => match c with PostTweetWithRateLimit _ => true | _ => false end
  | _ => false
  end.

Definition is_PostCast (e : Event) : bool :=
  match e with
  | Ev c _ => match c with PostCastWithRateLimit _ => true | _ => false end
  | _ => false
  end.

(** The reflection posted carries the commentary, the risk assessment and
    the recommendation of the analysis. *)
Definition reflection_of (analysis : Analysis.t) (e : Event) : Prop :=
  match e with
  | Ev c _ =>
      match c with
      | GenerateMarketReflectionPostForPlatform p _ =>
          Analysis.marketCommentary analysis = Some (ReflectionParams.commentary p)
          /\ ReflectionParams.riskAssessment p = Analysis.riskAssessment analysis
          /\ ReflectionParams.portfolioRecommendation p
             = Analysis.portfolioRecommendation analysis
      | _ => True
      end
  | _ => True
  end.

(** The low-balance alert: a tweet of the balance just read, after
    [hasSufficientBalance] answered [false]. *)
Definition alert_follows_balance (weiToEth : Z -> float)
    (numToString : float -> string) (h : History) (e : Event) : Prop :=
  match e with
  | Ev c _ =>
      match c with
      | PostTweetWithRateLimit content =>
          exists balance rest,
            h = Ev GetBalance (inr balance)
                :: Ev HasSufficientBalance (inr false) :: rest
            /\ content = alertMessage weiToEth numToString balance
      | GetBalance =>
          exists rest, h = Ev HasSufficientBalance (inr false) :: rest
      | _ => True
      end
  | _ => True
  end.

(** ** A SELL execution, call by call *)

(** The environment lets [e] happen in the history [h]. *)
Definition happens (env : Env.t) (h : History) (e : Event) : Prop :=
  match e with
  | Ev c r => Env.respond env h c = r
  | EvClock t => Env.clock env h = t
  | EvRandom x => Env.random env h = x
  end.

(** The environment lets the events [events], newest first, happen one after
    the other from the history [h0] on. *)
Fixpoint plays (env : Env.t) (events : list Event) (h0 : History) : Prop :=
  match events with
  | [] => True
  | e :: earlier => happens env (earlier ++ h0) e /\ plays env earlier h0
  end.

(** The first three calls of a SELL execution that finds the open trade [t],
    newest first, each with a successful answer: the open trades are read, the
    price of [t] is fetched, the position is closed. *)
Definition sell_calls (config : Config.t) (d : Decision.t)
    (trades : list Trade.t) (t : Trade.t) (price : float)
    (result : CloseResult.t) : list Event :=
  [ Ev (ClosePosition (Trade.market_name t) (Trade.position t)
          (Trade.entry_price t) price (amountUsdOf config d t)
          (Trade.market_id t)) (inr result);
    Ev (GetMarketPrice (Decision.marketId d) (Trade.position t)) (inr price);
    Ev GetOpenTrades (inr trades) ].

(** The patch a SELL execution writes to the trade [t]. *)
Definition sell_patch (t : Trade.t) (price : float) (result : CloseResult.t)
    : TradePatch.t :=
  TradePatch.mk price (CloseResult.txHash result) (CloseResult.timestamp result)
    (pnlBpsOf price (Trade.entry_price t)) CLOSED.

(** The call that persists the patch, with its answer. *)
Definition sell_update (t : Trade.t) (price : float) (result : CloseResult.t)
    (answer : Exn + unit) : Event :=
  Ev (UpdateTrade (Trade.id t) (sell_patch t price result)) answer.

(** The first open trade on the market of the decision. *)
Definition tradeToCloseOf (d : Decision.t) (trades : list Trade.t)
    : option Trade.t :=
  find (fun t => (Trade.market_id t =? Decision.marketId d)%string) trades.

(* ================================================================== *)
(** * Concrete environments *)
(* ================================================================== *)

(** Stand-ins for the collaborators, used to run the model on examples. *)
Module Scenario.

Definition config : Config.t :=
  Config.mk false ["0xA11CE"%string] 3600000 0x1p-10%float false
    3000%float 1500%float 3000%float (Some "signer-uuid"%string) 900000.

Definition weiToEth (wei : Z) : float :=
  (of_uint63 (Uint63.of_Z (wei / 10 ^ 9)) / 1000000000)%float.

Definition numToString (x : float) : string := "<number>".

Definition startOfLocalDay (t : Z) : Z := t - t mod 86400000.

(** Every collaborator succeeds, with nothing to do. *)
Definition answer (A : Type) (c : Call A) : Exn + A :=
  match c in Call T return Exn + T with
  | HasSufficientBalance => inr true
  | GetBalance => inr (10 ^ 18)
  | FetchMarkets =>
      inr (MarketData.mk
             [Market.mk "m1" "Rain tomorrow?" 6000%float 4000%float 1000%float])
  | FetchNewsHeadlines _ => inr []
  | AnalyzeMarkets _ _ _ _ => inr (Analysis.mk [] None None None)
  | GenerateReply _ => inr "gm"%string
  | ExecuteTrade req =>
      inr (TradeResult.mk None (TradeRequest.expectedPrice req) "0xbuy"
             1700000000000)
  | ClosePosition _ _ _ _ _ _ => inr (CloseResult.mk "0xsell" 1700000000001)
  | GetMarketPrice _ _ => inr 120%float
  | SendTip _ _ => inr tt
  | CreateTrade t =>
      inr (Trade.mk "trade-1" (NewTrade.market_id t) (NewTrade.market_name t)
             (NewTrade.position t) (JS.value (NewTrade.amount_eth t))
             (Some (NewTrade.amount_usd t)) (NewTrade.entry_price t)
             (NewTrade.entry_timestamp t) None OPEN)
  | UpdateTrade _ _ => inr tt
  | GetOpenTrades => inr []
  | GetAllTrades _ => inr []
  | CreatePortfolioSnapshot _ => inr tt
  | RecordSocialPost _ => inr tt
  | GetUnprocessedMentions => inr []
  | MarkMentionReplied _ _ => inr tt
  | RecordMention _ => inr tt
  | GenerateTradeEntryPostForPlatform _ _ => inr "entry post"%string
  | GenerateTradeExitPostForPlatform _ _ => inr "exit post"%string
  | GenerateDailySummaryForPlatform _ _ => inr "daily summary"%string
  | GenerateMarketReflectionPostForPlatform _ _ => inr "reflection"%string
  | GenerateRoundSummaryForPlatform _ _ => inr "round summary"%string
  | PostTweetWithRateLimit _ => inr (Some "tweet-1"%string)
  | PostCastWithRateLimit _ => inr (Some "0xcast"%string)
  | FetchTwitterMentions => inr []
  | FetchFarcasterMentions => inr []
  | ReplyToTweet _ _ => inr "reply-1"%string
  | ReplyToCast _ _ => inr "0xreply"%string
  | ProcessNotableTrades => inr tt
  | Sleep _ => inr tt
  end.

(** The clock advances by one millisecond per event from a start long
    after the epoch. *)
Definition clock (h : History) : Z := 1700000000000 + Z.of_nat (List.length h).

Definition random (h : History) : float := 0x1p-1%float.

(** Of several rejections, the first in list order is the first in time. *)
Definition settles_first (h : History) : nat := 0%nat.

(** An environment that overrides some answers of [answer]. *)
Definition override
    (f : forall A : Type, History -> Call A -> option (Exn + A)) : Env.t :=
  Env.mk
    (fun A h c => match f A h c with Some r => r | None => answer c end)
    clock random settles_first.

Definition calm : Env.t := override (fun _ _ _ => None).

Definition trade1 : Trade.t :=
  Trade.mk "trade-1" "m1" "Rain tomorrow?" YES
    (JS.value 0x1.999999999999ap-5%float) (Some 150%float) 100%float
    1699999000000 None OPEN.


(** The wallet cannot be reached. *)
Definition wallet_down : Env.t :=
  override (fun A h c =>
    match c in Call T return option (Exn + T) with
    | HasSufficientBalance => Some (inl "rpc unreachable"%string)
    | _ => None
    end).



(** The tip transaction is rejected. *)
Definition tip_fails : Env.t :=
override (fun A h c =>
  match c in Call T return option (Exn + T) with
  | SendTip _ _ => Some (inl "insufficient funds"%string)
  | _ => None
  end).


(** The rows of an in-memory [mentions] table after the history [h]: one
    row per successful [recordMention], newest first. *)
Fixpoint mention_rows (h : History) : list Mention.t :=
  match h with
  | [] => []
  | e :: rest =>
      match e with
      | Ev c r =>
          match c with
          | RecordMention m =>
              if failed e then mention_rows rest
              else Mention.mk (NewMention.mention_id m) (NewMention.platform m)
                     (NewMention.mention_id m) (NewMention.author m)
                     (NewMention.content m) (NewMention.replied m)
                     (NewMention.timestamp m) None
                   :: mention_rows rest
          | _ => mention_rows rest
          end
      | _ => mention_rows rest
      end
  end.

Definition tweet1 : TwitterMention.t :=
  TwitterMention.mk "tw-1" "alice" "gm crab" 1699999900000.

(** The database keeps every recorded mention, and Twitter reports the same
    mention twice. *)
Definition same_mention_twice : Env.t :=
Env.mk
  (fun A h c =>
     match c in Call T return Exn + T with
     | GetUnprocessedMentions => inr (mention_rows h)
     | FetchTwitterMentions => inr [tweet1; tweet1]
     | c' => answer c'
     end)
  clock random settles_first.

(** A successful [markMentionReplied] of the row [rowId]. *)
Definition is_marked (rowId : string) (e : Event) : bool :=
  match e with
  | Ev c _ =>
      match c with
      | MarkMentionReplied i _ => (i =? rowId)%string && negb (failed e)
      | _ => false
      end
  | _ => false
  end.

(** Another table: [getUnprocessedMentions] leaves out the rows that were
    marked replied, and [recordMention] accepts a mention twice. *)
Definition unreplied_rows (h : History) : list Mention.t :=
  filter (fun row => negb (existsb (is_marked (Mention.id row)) h))
         (mention_rows h).

Definition unreplied_only : Env.t :=
Env.mk
  (fun A h c =>
     match c in Call T return Exn + T with
     | GetUnprocessedMentions => inr (unreplied_rows h)
     | FetchTwitterMentions => inr [tweet1; tweet1]
     | c' => answer c'
     end)
  clock random settles_first.

Definition buy1 : Decision.t :=
  Decision.mk BUY "m1" "Rain tomorrow?" YES 0x1.999999999999ap-5%float
    "clouds are gathering" 0x1.6666666666666p-1%float.

(** Farcaster accepts the request and returns no hash. *)
Definition cast_returns_null : Env.t :=
override (fun A h c =>
  match c in Call T return option (Exn + T) with
  | PostCastWithRateLimit _ => Some (inr None)
  | _ => None
  end).

(** Twitter accepts the request and returns no id. *)
Definition tweet_returns_null : Env.t :=
override (fun A h c =>
  match c in Call T return option (Exn + T) with
  | PostTweetWithRateLimit _ => Some (inr None)
  | _ => None
  end).


(** A decision to leave the first market. *)
Definition sell1 : Decision.t :=
  Decision.mk SELL "m1" "Rain tomorrow?" YES 0x1.999999999999ap-5%float
    "the sky has cleared" 0x1.6666666666666p-1%float.

(** One open trade, on the first market. *)
Definition holding : Env.t :=
override (fun A h c =>
  match c in Call T return option (Exn + T) with
  | GetOpenTrades => Some (inr [trade1])
  | _ => None
  end).

(** A trade entered at 4000 whose market now stands at 4043: the exact ratio
    is 107.5 basis points. *)
Definition trade3 : Trade.t :=
  Trade.mk "trade-3" "m3" "Fog tomorrow?" YES
    (JS.value 0x1.999999999999ap-5%float) (Some 150%float) 4000%float
    1699999700000 None OPEN.

Definition sell3 : Decision.t :=
  Decision.mk SELL "m3" "Fog tomorrow?" YES 0x1.999999999999ap-5%float
    "the fog is lifting" 0x1.6666666666666p-1%float.

Definition near_tie : Env.t :=
override (fun A h c =>
  match c in Call T return option (Exn + T) with
  | GetOpenTrades => Some (inr [trade3])
  | GetMarketPrice _ _ => Some (inr 4043%float)
  | _ => None
  end).

End Scenario.

From Stdlib Require Import RelationClasses.

(* ================================================================== *)
(** * Rounding *)
(* ================================================================== *)

(** [round_half_up num den] is the integer [k] with
    [k <= num / den + 1/2 < k + 1]: the nearest integer, the upper one at a
    tie. *)
Lemma round_half_up_nearest num den :
  0 < den ->
  let k := JS.round_half_up num den in
  2 * den * k <= 2 * num + den < 2 * den * (k + 1).
Proof.
  intros Hden k. subst k. unfold JS.round_half_up.
  pose proof (Z.div_mod (2 * num + den) (2 * den)) as Hdm.
  pose proof (Z.mod_pos_bound (2 * num + den) (2 * den)) as Hb.
  lia.
Qed.

(** [Math.round] on some halves, signs and large values. *)
Example Math_round_examples :
  JS.Math_round 2.5%float = 3%float
  /\ JS.Math_round (-2.5)%float = (-2)%float
  /\ JS.Math_round (-0.5)%float = (-0)%float
  /\ JS.Math_round 0x1.fffffffffffffp-2%float = 0%float
  /\ JS.Math_round (-3)%float = (-3)%float
  /\ JS.Math_round 4503599627370497%float = 4503599627370497%float
  /\ JS.Math_round nan = nan
  /\ JS.Math_round infinity = infinity.
Proof. repeat split; reflexivity. Qed.

(* ================================================================== *)
(** * A small program logic *)
(* ================================================================== *)

Lemma since_trans Q h0 h1 h2 :
  since Q h0 h1 -> since Q h1 h2 -> since Q h0 h2.
Proof. intros H01 H12. induction H12; [assumption | constructor; assumption]. Qed.

Lemma since_weaken (Q Q' : History -> Event -> Prop) h0 h :
  (forall h' e, Q h' e -> Q' h' e) -> since Q h0 h -> since Q' h0 h.
Proof. intros HQ H. induction H; constructor; auto. Qed.

#[export] Instance continues_preorder Q : PreOrder (continues Q).
Proof.
  split.
  - intros w. apply since_refl.
  - intros a b c Hab Hbc. eapply since_trans; eassumption.
Qed.

(** Structural rules: a preorder is kept by sequencing, catching and
    looping. *)
Section MovesRules.
Variable env : Env.t.
Variable R : World.t -> World.t -> Prop.
Context {R_preorder : PreOrder R}.

Lemma moves_ret A (a : A) : moves R (ret a).
Proof. intros w. reflexivity. Qed.

Lemma moves_throw A e : moves R (@throw A e).
Proof. intros w. reflexivity. Qed.

Lemma moves_bind A B (m : M A) (k : A -> M B) :
  moves R m -> (forall a, moves R (k a)) -> moves R (bind m k).
Proof.
  intros Hm Hk w. unfold bind. specialize (Hm w).
  destruct (m w) as [[e|a] w1]; simpl in *; [assumption|].
  etransitivity; [eassumption | apply Hk].
Qed.

Lemma moves_try_catch A (m : M A) (h : Exn -> M A) :
  moves R m -> (forall e, moves R (h e)) -> moves R (try_catch m h).
Proof.
  intros Hm Hh w. unfold try_catch. specialize (Hm w).
  destruct (m w) as [[e|a] w1]; simpl in *; [|assumption].
  etransitivity; [eassumption | apply Hh].
Qed.

Lemma moves_for_of A (l : list A) (body : A -> M unit) :
  (forall x, moves R (body x)) -> moves R (for_of l body).
Proof.
  intros Hb. induction l as [|x xs IH]; simpl.
  - apply moves_ret.
  - apply moves_bind; auto.
Qed.

Lemma moves_for_fold A S (l : list A) (body : A -> S -> M S) :
  (forall x s, moves R (body x s)) -> forall s, moves R (for_fold l s body).
Proof.
  intros Hb. induction l as [|x xs IH]; simpl; intros s.
  - apply moves_ret.
  - apply moves_bind; auto.
Qed.

Lemma moves_promise_all_settled A B (f : A -> M B) (l : list A) :
  (forall x, moves R (f x)) ->
  forall w, R w (snd (promise_all_settled f l w)).
Proof.
  intros Hf. induction l as [|x xs IH]; intros w; simpl.
  - reflexivity.
  - specialize (Hf x w). destruct (f x w) as [r w1]; simpl in Hf.
    specialize (IH w1). destruct (promise_all_settled f xs w1) as [rs w2];
      simpl in *.
    etransitivity; eassumption.
Qed.

Lemma moves_promise_all_map A B first (f : A -> M B) (l : list A) :
  (forall x, moves R (f x)) -> moves R (promise_all_map first f l).
Proof.
  intros Hf w. unfold promise_all_map.
  pose proof (@moves_promise_all_settled A B f l Hf w) as H.
  destruct (promise_all_settled f l w) as [rs w1]; simpl in H.
  destruct (rejections rs); exact H.
Qed.

Lemma moves_call A (c : Call A) :
  (forall w r, R w (push (Ev c r) w)) -> moves R (call env c).
Proof. intros H w. apply H. Qed.

Lemma moves_Date_now :
  (forall w t, R w (push (EvClock t) w)) -> moves R (Date_now env).
Proof. intros H w. apply H. Qed.

Lemma moves_Math_random :
  (forall w x, R w (push (EvRandom x) w)) -> moves R (Math_random env).
Proof. intros H w. apply H. Qed.

Lemma moves_get_lastDailySummary : moves R get_lastDailySummary.
Proof. intros w. reflexivity. Qed.

Lemma moves_get_lastTipTime : moves R get_lastTipTime.
Proof. intros w. reflexivity. Qed.

Lemma moves_put_lastDailySummary v :
  (forall w, R w (set_lastDailySummary v w)) -> moves R (put_lastDailySummary v).
Proof. intros H w. apply H. Qed.

Lemma moves_put_lastTipTime v :
  (forall w, R w (set_lastTipTime v w)) -> moves R (put_lastTipTime v).
Proof. intros H w. apply H. Qed.
End MovesRules.

(** Sequencing under an accumulated relation: either the first part throws,
    or the rest runs from a world still related to the start. *)
Lemma bind_step (R : World.t -> World.t -> Prop) {HR : PreOrder R}
    A B (m : M A) (k : A -> M B) (P : (Exn + B) * World.t -> Prop) w0 w :
  R w0 w ->
  moves R m ->
  (forall e w1, R w0 w1 -> P (inl e, w1)) ->
  (forall a w1, R w0 w1 -> P (k a w1)) ->
  P (bind m k w).
Proof.
  intros H0 Hm He Hk. unfold bind. specialize (Hm w).
  destruct (m w) as [[e|a] w1]; simpl in Hm.
  - apply He. etransitivity; eassumption.
  - apply Hk. etransitivity; eassumption.
Qed.

(** One structural step; the goals left are about single events and single
    writes. *)
Ltac rule L := apply L; try exact _.

Ltac moves_step :=
  match goal with
  | |- emits _ _ => unfold emits
  | |- moves _ (bind _ _) => rule moves_bind; [| intros ?]
  | |- moves _ (try_catch _ _) => rule moves_try_catch; [| intros ?]
  | |- moves _ (ret _) => rule moves_ret
  | |- moves _ (throw _) => rule moves_throw
  | |- moves _ (for_of _ _) => rule moves_for_of; intros ?
  | |- moves _ (for_fold _ _ _) => rule moves_for_fold; intros ? ?
  | |- moves _ (promise_all_map _ _ _) => rule moves_promise_all_map; intros ?
  | |- moves _ (call _ _) => rule moves_call; intros ? ?
  | |- moves _ (Date_now _) => rule moves_Date_now; intros ? ?
  | |- moves _ (Math_random _) => rule moves_Math_random; intros ? ?
  | |- moves _ get_lastDailySummary => rule moves_get_lastDailySummary
  | |- moves _ get_lastTipTime => rule moves_get_lastTipTime
  | |- moves _ (put_lastDailySummary _) => rule moves_put_lastDailySummary; intros ?
  | |- moves _ (put_lastTipTime _) => rule moves_put_lastTipTime; intros ?
  | |- moves _ (if ?b then _ else _) => destruct b
  | |- moves _ (match ?x with _ => _ end) => destruct x
  | |- moves _ (let (_, _) := ?x in _) => destruct x
  end.

(** Events that are judged without their history. *)
Ltac one_event :=
  match goal with
  | |- continues _ ?w (push _ ?w) =>
      unfold continues; simpl; apply since_step; [apply since_refl | simpl; auto]
  | |- continues _ ?w (set_lastDailySummary _ ?w) => apply since_refl
  | |- continues _ ?w (set_lastTipTime _ ?w) => apply since_refl
  end.

(** Path analysis: split on the next answer of the environment. *)
Ltac answer :=
  match goal with
  | |- context [Env.respond ?e ?h ?c] =>
      let r := fresh "r" in
      let E := fresh "E" in
      destruct (Env.respond e h c) as [?|r] eqn:E; simpl
  | |- context [if JS.truthy ?x then _ else _] =>
      let E := fresh "E" in
      destruct (JS.truthy x) eqn:E; simpl
  end.

(** Judge the events of an explicit trace one by one, newest first. *)
Ltac judge tac :=
  repeat first [apply since_refl | apply since_step; [| tac]].

(** ** Traces as lists of events, oldest first *)

Lemma events_since_rev w w' events :
  World.trace w' = rev events ++ World.trace w ->
  events_since w w' = events.
Proof.
  intros H. unfold events_since. rewrite H, length_app.
  replace (List.length (rev events) + List.length (World.trace w)
           - List.length (World.trace w))%nat
    with (List.length (rev events) + 0)%nat by lia.
  rewrite firstn_app_2. simpl. rewrite app_nil_r. apply rev_involutive.
Qed.

Lemma since_events (P : Event -> Prop) h0 h :
  since (fun _ e => P e) h0 h ->
  exists events, h = rev events ++ h0 /\ Forall P events.
Proof.
  induction 1 as [|e h Hs [events [-> HF]] He].
  - exists []. split; [reflexivity | constructor].
  - exists (events ++ [e]). split.
    + rewrite rev_app_distr. reflexivity.
    + apply Forall_app. split; [assumption | repeat constructor; assumption].
Qed.

Lemma continues_events (P : Event -> Prop) w w' :
  continues (fun _ e => P e) w w' ->
  exists events, World.trace w' = rev events ++ World.trace w /\ Forall P events.
Proof. apply since_events. Qed.

Lemma call_run env A (c : Call A) w :
  call env c w =
  (Env.respond env (World.trace w) c,
   push (Ev c (Env.respond env (World.trace w) c)) w).
Proof. reflexivity. Qed.

Lemma trace_push_rev w wk events e :
  World.trace wk = rev events ++ World.trace w ->
  World.trace (push e wk) = rev (events ++ [e]) ++ World.trace w.
Proof. intros H. simpl. rewrite H, rev_app_distr. reflexivity. Qed.

Lemma trace_app_rev w wk wk' events events' :
  World.trace wk = rev events ++ World.trace w ->
  World.trace wk' = rev events' ++ World.trace wk ->
  World.trace wk' = rev (events ++ events') ++ World.trace w.
Proof. intros H H'. rewrite H', H, rev_app_distr, app_assoc. reflexivity. Qed.

Lemma bind_run A B (m : M A) (k : A -> M B) w :
  bind m k w =
  match m w with
  | (inr a, w1) => k a w1
  | (inl e, w1) => (inl e, w1)
  end.
Proof. reflexivity. Qed.

(* ================================================================== *)
(** * The decision executor *)
(* ================================================================== *)

Section Executor.

Variable config : Config.t.
Variable env : Env.t.

Lemma closeTrade_events d t w trades rest :
  World.trace w = Ev GetOpenTrades (inr trades) :: rest ->
  find (fun t' => (Trade.market_id t' =? Decision.marketId d)%string) trades
    = Some t ->
  continues (sell_events_ok config) w (snd (closeTrade config env d t w)).
Proof.
  intros Hw Hfind.
  destruct w as [h g]; simpl in Hw; subst h.
  unfold continues, closeTrade, bind, try_catch, call, Date_now, ret; simpl.
  repeat answer.
  all: judge ltac:(unfold sell_events_ok; simpl; auto).
  all: repeat split; auto.
  all: try (eexists; split; [reflexivity | split; reflexivity]).
  all: unfold sell_update_justified; do 7 eexists;
    (split; [reflexivity |]); (split; [eassumption |]); split; reflexivity.
Qed.

Lemma executeBuy_events d pm :
  emits (sell_events_ok config) (executeBuy config env d pm).
Proof.
  unfold executeBuy. repeat moves_step.
  all: unfold continues; simpl; apply since_step;
    [apply since_refl | unfold sell_events_ok; simpl; auto].
Qed.

Lemma executeDecision_events pm d cs :
  emits (sell_events_ok config) (executeDecision config env pm d cs).
Proof.
  unfold executeDecision. destruct cs as [executed skipped].
  destruct (Decision.action d).
  - repeat moves_step. apply executeBuy_events.
  - intros w. unfold try_catch, bind at 1. unfold call at 1; simpl.
    destruct (Env.respond env (World.trace w) GetOpenTrades) as [e|trades] eqn:E;
      simpl.
    + apply since_step; [apply since_refl | unfold sell_events_ok; simpl; auto].
    + destruct (find _ trades) as [t|] eqn:Hfind.
      * assert (H := @closeTrade_events d t
                       (push (Ev GetOpenTrades (inr trades)) w) trades
                       (World.trace w) eq_refl Hfind).
        unfold bind.
        destruct (closeTrade config env d t _) as [[e|[]] w1]; simpl in *;
          (eapply since_trans; [| exact H]);
          (apply since_step; [apply since_refl | unfold sell_events_ok; simpl; auto]).
      * simpl. apply since_step;
          [apply since_refl | unfold sell_events_ok; simpl; auto].
  - repeat moves_step.
Qed.

Lemma executeTradingDecisions_events decisions pm :
  emits (sell_events_ok config) (executeTradingDecisions config env decisions pm).
Proof.
  unfold executeTradingDecisions. repeat moves_step.
  apply executeDecision_events.
Qed.

End Executor.

(* ================================================================== *)
(** * The health gate *)
(* ================================================================== *)

Section Health.

Variable config : Config.t.
Variable env : Env.t.
Variable weiToEth : Z -> float.
Variable numToString : float -> string.
Variable startOfLocalDay : Z -> Z.

(** [healthCheck] never throws, and it answers [false] exactly when
    [hasSufficientBalance] does not resolve to [true]. *)
Lemma healthCheck_false_iff w :
  fst (healthCheck env weiToEth numToString w) = inr false <->
  Env.respond env (World.trace w) HasSufficientBalance <> inr true.
Proof.
  unfold healthCheck, try_catch, bind, call, ret; simpl.
  destruct (Env.respond env (World.trace w) HasSufficientBalance) as [e|[|]];
    simpl; [split; congruence | split; congruence |].
  repeat answer; split; congruence.
Qed.

Lemma healthCheck_events :
  emits (fun _ e => is_ai_or_trading e = false)
    (healthCheck env weiToEth numToString).
Proof. unfold healthCheck. repeat moves_step; one_event. Qed.

End Health.

(** C3.  When [hasSufficientBalance] answers [false] or throws, the health
    check returns [false]; and whenever the health check returns [false],
    [runOneIteration] returns [ok = false] with the message of the gate, and
    no event of the iteration is a call to the AI collaborator or to the
    trading collaborator. *)
Theorem unhealthy_iteration_is_skipped :
  forall config env weiToEth numToString startOfLocalDay w,
    let run :=
      runOneIteration config env weiToEth numToString startOfLocalDay w in
    (Env.respond env (World.trace w) HasSufficientBalance <> inr true ->
     fst (healthCheck env weiToEth numToString w) = inr false)
    /\ (fst (healthCheck env weiToEth numToString w) = inr false ->
        fst run = inr (IterationResult.mk false "Health check failed")
        /\ continues (fun _ e => is_ai_or_trading e = false) w (snd run)).
Proof.
  intros. split.
  - apply healthCheck_false_iff.
  - intros H. subst run. unfold runOneIteration, try_catch, bind.
    pose proof (healthCheck_events env weiToEth numToString w) as Hev.
    destruct (healthCheck env weiToEth numToString w) as [[e|b] w1];
      simpl in H; [discriminate |].
    injection H as ->. simpl. split; [reflexivity | exact Hev].
Qed.

Lemma unhealthy_iteration_is_skipped_witness :
  let run :=
    runOneIteration Scenario.config Scenario.wallet_down Scenario.weiToEth
      Scenario.numToString Scenario.startOfLocalDay initialWorld in
  fst run = inr (IterationResult.mk false "Health check failed")
  /\ continues (fun _ e => is_ai_or_trading e = false) initialWorld (snd run).
Proof.
  destruct (unhealthy_iteration_is_skipped Scenario.config Scenario.wallet_down
              Scenario.weiToEth Scenario.numToString Scenario.startOfLocalDay
              initialWorld) as [Hgate Hskip].
  apply Hskip. apply Hgate. vm_compute. discriminate.
Defined.

(* ================================================================== *)
(** * The daily digest *)
(* ================================================================== *)




(* ================================================================== *)
(** * The tip disbursement *)
(* ================================================================== *)

#[export] Instance no_tip_preorder : PreOrder no_tip.
Proof.
  split.
  - intros w. split; auto.
  - intros a b c [H1 H2] [H3 H4]. split; [congruence | auto].
Qed.

Ltac no_tip_event :=
  match goal with
  | |- no_tip ?w (push _ ?w) => split; [reflexivity | intros _; reflexivity]
  | |- no_tip ?w (set_lastDailySummary _ ?w) => split; [reflexivity | auto]
  end.

Section Tip.
Variable config : Config.t.
Variable env : Env.t.
Variable weiToEth : Z -> float.
Variable numToString : float -> string.
Variable startOfLocalDay : Z -> Z.

Lemma executeTradingDecisions_no_tip ds pm :
  moves no_tip (executeTradingDecisions config env ds pm).
Proof.
  unfold executeTradingDecisions, executeDecision, executeBuy, closeTrade.
  repeat moves_step; no_tip_event.
Qed.

Lemma processMentions_no_tip : moves no_tip (processMentions config env).
Proof.
  unfold processMentions, processTwitterMention, processFarcasterMention.
  repeat moves_step; no_tip_event.
Qed.

Lemma postDailySummary_no_tip :
  moves no_tip (postDailySummary env weiToEth startOfLocalDay).
Proof. unfold postDailySummary. repeat moves_step; no_tip_event. Qed.

Lemma openPositionsWithPrices_no_tip ts :
  moves no_tip (openPositionsWithPrices env ts).
Proof.
  unfold openPositionsWithPrices, positionView. repeat moves_step; no_tip_event.
Qed.

Lemma postCommentary_no_tip a : moves no_tip (postCommentary env a).
Proof. unfold postCommentary. repeat moves_step; no_tip_event. Qed.

Lemma postRoundSummary_no_tip p : moves no_tip (postRoundSummary config env p).
Proof. unfold postRoundSummary. repeat moves_step; no_tip_event. Qed.

Lemma tipDisbursement_outcome w0 w :
  lastTipTime w = lastTipTime w0 ->
  tip_outcome config w0 (snd (tipDisbursement config env w)).
Proof.
  intros Hlast. unfold tipDisbursement, pickTipRecipient, bind, try_catch, call, Date_now,
    Math_random, ret, get_lastTipTime, put_lastTipTime; simpl.
  change (lastTipTime (push (EvClock (Env.clock env (World.trace w))) w))
    with (lastTipTime w).
  set (now := Env.clock env (World.trace w)).
  destruct (Config.disableTips config) eqn:Hd; simpl.
  { split; [exact Hlast | discriminate]. }
  destruct (Config.tipIntervalMs config <=? now - lastTipTime w) eqn:Hgate; simpl.
  2:{ split; [exact Hlast | discriminate]. }
  apply Z.leb_le in Hgate.
  destruct (List.length (Config.tipRecipients config) =? 0)%nat; simpl.
  { split; [exact Hlast | discriminate]. }
  destruct (JS.truthy _) eqn:Ht; simpl.
  2:{ split; [exact Hlast | discriminate]. }
  answer.
  - split; [exact Hlast | discriminate].
  - split; [reflexivity |]. intros n Hn. injection Hn as <-.
    split; [exact Hd | rewrite <- Hlast; exact Hgate].
Qed.

Lemma healthCheck_no_tip w :
  let w1 := snd (healthCheck env weiToEth numToString w) in
  lastTipTime w1 = lastTipTime w /\ tip_sent_at (World.trace w1) = None.
Proof.
  unfold healthCheck, try_catch, bind, call, ret; simpl.
  answer; [split; reflexivity |].
  destruct r; simpl; [split; reflexivity |].
  repeat answer; split; reflexivity.
Qed.

Lemma aborted_outcome w w1 wk :
  lastTipTime w1 = lastTipTime w ->
  tip_sent_at (World.trace w1) = None ->
  no_tip w1 wk ->
  tip_outcome config w wk.
Proof.
  intros Hl Hn [H1 H2]. unfold tip_outcome. rewrite (H2 Hn).
  split; [congruence | discriminate].
Qed.

Lemma iterationBody_outcome w w1 :
  lastTipTime w1 = lastTipTime w ->
  tip_sent_at (World.trace w1) = None ->
  tip_outcome config w
    (snd (iterationBody config env weiToEth startOfLocalDay w1)).
Proof.
  intros Hl Hn.
  set (P := fun rw : (Exn + IterationResult.t) * World.t => tip_outcome config w (snd rw)).
  change (P (iterationBody config env weiToEth startOfLocalDay w1)).
  unfold iterationBody, afterAnalysis.
  assert (Habort : forall e wk, no_tip w1 wk -> P (inl e, wk)).
  { intros e wk Hk. eapply aborted_outcome; eassumption. }
  assert (H0 : no_tip w1 w1) by reflexivity.
  repeat match goal with
         | |- P (bind (tipDisbursement _ _) _ _) => fail 1
         | |- P (bind _ _ _) =>
             eapply bind_step with (R := no_tip);
             [exact _ | eassumption | | exact Habort | intros ? ? ?]
         end.
  13: {
    subst P. cbv beta. unfold bind.
    match goal with
    | H : no_tip w1 ?wn |- context [tipDisbursement config env ?wn] =>
        pose proof (@tipDisbursement_outcome w wn) as Ht; destruct H as [Hk _]
    end.
    destruct (tipDisbursement config env _) as [[e|[]] w']; simpl in *;
      apply Ht; congruence. }
  all: try (moves_step; no_tip_event).
  - apply openPositionsWithPrices_no_tip.
  - apply postCommentary_no_tip.
  - apply executeTradingDecisions_no_tip.
  - apply processMentions_no_tip.
  - apply postDailySummary_no_tip.
  - apply postRoundSummary_no_tip.
Qed.

End Tip.

(** C6.  After an iteration, [lastTipTime] holds the time read at the tip
    gate exactly when the last thing the iteration did is a [sendTip] that
    succeeded; in every other case, and in particular when [sendTip] threw,
    it keeps the value it had before the iteration.  A tip is sent only when
    tips are enabled and [now - lastTipTime >= tipIntervalMs]. *)
Theorem tip_timer_follows_disbursement :
  forall config env weiToEth numToString startOfLocalDay w,
    let w' :=
      snd (runOneIteration config env weiToEth numToString startOfLocalDay w) in
    lastTipTime w' =
      match tip_sent_at (World.trace w') with
      | Some now => now
      | None => lastTipTime w
      end
    /\ (forall now, tip_sent_at (World.trace w') = Some now ->
        Config.disableTips config = false
        /\ Config.tipIntervalMs config <= now - lastTipTime w)
    /\ (forall recipient amount e rest,
          World.trace w' = Ev (SendTip recipient amount) (inl e) :: rest ->
          lastTipTime w' = lastTipTime w).
Proof.
  intros config env weiToEth numToString startOfLocalDay w w'.
  assert (H : tip_outcome config w w').
  { subst w'. unfold runOneIteration, try_catch, bind.
    destruct (healthCheck_no_tip env weiToEth numToString w) as [Hl Hn].
    destruct (healthCheck env weiToEth numToString w) as [[e|healthy] w1];
      simpl in Hl, Hn.
    - simpl. eapply aborted_outcome; [exact Hl | exact Hn | reflexivity].
    - destruct healthy; simpl.
      + pose proof (@iterationBody_outcome config env weiToEth startOfLocalDay
                      w w1 Hl Hn) as Hb.
        destruct (iterationBody config env weiToEth startOfLocalDay w1)
          as [[e|r] w2]; exact Hb.
      + eapply aborted_outcome; [exact Hl | exact Hn | reflexivity]. }
  destruct H as [H1 H2]. split; [exact H1 | split; [exact H2 |]].
  intros recipient amount e rest Htr. rewrite H1, Htr. reflexivity.
Qed.

Lemma tip_timer_follows_disbursement_witness :
  let failing :=
    snd (runOneIteration Scenario.config Scenario.tip_fails Scenario.weiToEth
           Scenario.numToString Scenario.startOfLocalDay initialWorld) in
  let passing :=
    snd (runOneIteration Scenario.config Scenario.calm Scenario.weiToEth
           Scenario.numToString Scenario.startOfLocalDay initialWorld) in
  lastTipTime failing = lastTipTime initialWorld
  /\ Config.tipIntervalMs Scenario.config
     <= lastTipTime passing - lastTipTime initialWorld.
Proof.
  intros failing passing.
  destruct (tip_timer_follows_disbursement Scenario.config Scenario.tip_fails
              Scenario.weiToEth Scenario.numToString Scenario.startOfLocalDay
              initialWorld) as [_ [_ Hthrown]].
  destruct (tip_timer_follows_disbursement Scenario.config Scenario.calm
              Scenario.weiToEth Scenario.numToString Scenario.startOfLocalDay
              initialWorld) as [Hsent [Hgate _]].
  fold failing in Hthrown. fold passing in Hsent, Hgate.
  split.
  - let t := eval vm_compute in (World.trace failing) in
    assert (E : World.trace failing = t) by (vm_compute; reflexivity).
    exact (Hthrown _ _ _ _ E).
  - let t := eval vm_compute in (tip_sent_at (World.trace passing)) in
    assert (E : tip_sent_at (World.trace passing) = t) by (vm_compute; reflexivity).
    rewrite Hsent, E. exact (proj2 (Hgate _ E)).
Defined.

(* ================================================================== *)
(** * The mention responder *)
(* ================================================================== *)

#[export] Instance answers_once_preorder pf id : PreOrder (answers_once pf id).
Proof.
  split.
  - intros w. unfold answers_once. split; intros H; auto.
  - intros a b c [Hab1 Hab2] [Hbc1 Hbc2]. unfold answers_once in *. split.
    + intros Ha. destruct (Hab1 Ha) as (Hb & Hg & Hr).
      destruct (Hbc1 Hb) as (Hc & Hg' & Hr'). repeat split; congruence.
    + intros Ha. destruct (Hab2 Ha) as [[Hg Hr] | (Hb & Hg & Hr)].
      * destruct (recorded pf id (World.trace b)) eqn:Hb.
        -- destruct (Hbc1 eq_refl) as (Hc & Hg' & Hr'). left. split; congruence.
        -- destruct (Hbc2 eq_refl) as [[Hg' Hr'] | (Hc & Hg' & Hr')].
           ++ left. split; congruence.
           ++ right. repeat split; [assumption | lia | lia].
      * destruct (Hbc1 Hb) as (Hc & Hg' & Hr'). right.
        repeat split; [assumption | lia | lia].
Qed.

Lemma Platform_eqb_eq a b : Platform_eqb a b = true -> a = b.
Proof. destruct a, b; simpl; congruence. Qed.

Lemma same_mention_eq pf id pf' id' :
  same_mention pf id pf' id' = true -> pf' = pf /\ id' = id.
Proof.
  unfold same_mention. intros H. apply andb_prop in H as [H1 H2].
  split; [apply Platform_eqb_eq; exact H1 | apply String.eqb_eq; exact H2].
Qed.

(** An event that is no recording, no generation and no reply changes
    nothing. *)
Lemma answers_once_quiet pf id w e :
  is_recorded pf id e = false ->
  is_GenerateReply e = false ->
  is_reply_to pf id e = false ->
  answers_once pf id w (push e w).
Proof.
  intros H1 H2 H3. unfold answers_once, recorded, replies_to. simpl.
  rewrite H1, H2, H3. simpl. split; intros H; auto.
Qed.

Ltac quiet_event :=
  match goal with
  | |- answers_once _ _ ?w (push _ ?w) =>
      apply answers_once_quiet; reflexivity
  | |- answers_once _ _ ?w (set_lastDailySummary _ ?w) => reflexivity
  | |- answers_once _ _ ?w (set_lastTipTime _ ?w) => reflexivity
  end.

Section Mentions.
Variable config : Config.t.
Variable env : Env.t.
Hypothesis faithful : mention_store_faithful env.

Lemma unseen_is_unrecorded pf id w rows pf' id' :
  Env.respond env (World.trace w) GetUnprocessedMentions = inr rows ->
  existsb (fun m => (Mention.mention_id m =? id')%string
                    && Platform_eqb (Mention.platform m) pf') rows = false ->
  same_mention pf id pf' id' = true ->
  recorded pf id (World.trace w) = false.
Proof.
  intros Hrows Hseen Hsame.
  apply same_mention_eq in Hsame as [-> ->].
  destruct (recorded pf id (World.trace w)) eqn:Hrec; [| reflexivity].
  rewrite (faithful _ _ _ Hrows Hrec) in Hseen. discriminate.
Qed.

Lemma processTwitterMention_once pf id mention :
  moves (answers_once pf id) (processTwitterMention env mention).
Proof.
  intros w. unfold processTwitterMention, try_catch, bind at 1.
  unfold call at 1; simpl.
  destruct (Env.respond env (World.trace w) GetUnprocessedMentions)
    as [e|rows] eqn:Hrows; simpl.
  { quiet_event. }
  destruct (existsb _ rows) eqn:Hseen; simpl.
  { quiet_event. }
  pose proof (@unseen_is_unrecorded pf id w rows TWITTER
                (TwitterMention.id mention) Hrows Hseen) as Hnew.
  unfold bind, call, Date_now, ret; simpl.
  repeat answer.
  all: try match goal with |- context [find ?f ?l] => destruct (find f l); simpl end.
  all: repeat answer.
  all: unfold answers_once, replies_to; unfold recorded in *; simpl.
  all: destruct (same_mention pf id TWITTER (TwitterMention.id mention));
    simpl;
    [ rewrite (Hnew eq_refl);
      (split; [discriminate |]); intros _;
      first [ left; split; reflexivity
            | right; repeat split; simpl; lia ]
    | split; intros H; [rewrite H; repeat split; reflexivity
                       | left; split; reflexivity] ].
Qed.

Lemma processFarcasterMention_once pf id mention :
  moves (answers_once pf id) (processFarcasterMention env mention).
Proof.
  intros w. unfold processFarcasterMention, try_catch, bind at 1.
  unfold call at 1; simpl.
  destruct (Env.respond env (World.trace w) GetUnprocessedMentions)
    as [e|rows] eqn:Hrows; simpl.
  { quiet_event. }
  destruct (existsb _ rows) eqn:Hseen; simpl.
  { quiet_event. }
  pose proof (@unseen_is_unrecorded pf id w rows FARCASTER
                (FarcasterMention.hash mention) Hrows Hseen) as Hnew.
  unfold bind, call, Date_now, ret; simpl.
  repeat answer.
  all: try match goal with |- context [find ?f ?l] => destruct (find f l); simpl end.
  all: repeat answer.
  all: unfold answers_once, replies_to; unfold recorded in *; simpl.
  all: destruct (same_mention pf id FARCASTER (FarcasterMention.hash mention));
    simpl;
    [ rewrite (Hnew eq_refl);
      (split; [discriminate |]); intros _;
      first [ left; split; reflexivity
            | right; repeat split; simpl; lia ]
    | split; intros H; [rewrite H; repeat split; reflexivity
                       | left; split; reflexivity] ].
Qed.

Lemma processMentions_once pf id :
  moves (answers_once pf id) (processMentions config env).
Proof.
  unfold processMentions. repeat moves_step; try quiet_event.
  - apply processTwitterMention_once.
  - apply processFarcasterMention_once.
Qed.

Lemma processTwitterMention_follows mention :
  emits reply_follows_record (processTwitterMention env mention).
Proof.
  intros w. destruct w as [h g].
  unfold continues, processTwitterMention, try_catch, bind, call, Date_now, ret;
    simpl.
  repeat answer.
  all: try match goal with |- context [existsb ?f ?l] => destruct (existsb f l); simpl end.
  all: repeat answer.
  all: try match goal with |- context [find ?f ?l] => destruct (find f l); simpl end.
  all: repeat answer.
  all: repeat match goal with u : unit |- _ => destruct u end.
  all: judge ltac:(simpl; auto).
  all: try (do 3 eexists; split; [reflexivity | repeat split; reflexivity]).
  all: do 2 eexists; split; reflexivity.
Qed.

Lemma processFarcasterMention_follows mention :
  emits reply_follows_record (processFarcasterMention env mention).
Proof.
  intros w. destruct w as [h g].
  unfold continues, processFarcasterMention, try_catch, bind, call, Date_now, ret;
    simpl.
  repeat answer.
  all: try match goal with |- context [existsb ?f ?l] => destruct (existsb f l); simpl end.
  all: repeat answer.
  all: try match goal with |- context [find ?f ?l] => destruct (find f l); simpl end.
  all: repeat answer.
  all: repeat match goal with u : unit |- _ => destruct u end.
  all: judge ltac:(simpl; auto).
  all: try (do 3 eexists; split; [reflexivity | repeat split; reflexivity]).
  all: do 2 eexists; split; reflexivity.
Qed.

Lemma processMentions_follows :
  emits reply_follows_record (processMentions config env).
Proof.
  unfold processMentions. repeat moves_step; try one_event.
  - apply processTwitterMention_follows.
  - apply processFarcasterMention_follows.
Qed.

End Mentions.

(** C7.  Provided the persistence collaborator keeps the mentions it has
    recorded ([mention_store_faithful]): in one run of [processMentions],
    for every mention [(platform, mention_id)], at most one [generateReply]
    is made for it and at most one reply is sent to it, however often the
    platform reports it; if it was recorded before the run, none is.  Every
    [generateReply] and every platform reply follows the successful recording
    of its mention. *)
Theorem mention_is_answered_once :
  forall config env,
    mention_store_faithful env ->
    forall w pf id,
      let w' := snd (processMentions config env w) in
      let h := World.trace w in
      let h' := World.trace w' in
      continues reply_follows_record w w'
      /\ (generations_for pf id h' <= generations_for pf id h + 1)%nat
      /\ (replies_to pf id h' <= replies_to pf id h + 1)%nat
      /\ (recorded pf id h = true ->
          generations_for pf id h' = generations_for pf id h
          /\ replies_to pf id h' = replies_to pf id h).
Proof.
  intros config env faithful w pf id w' h h'.
  split; [apply processMentions_follows |].
  destruct (processMentions_once config faithful pf id w) as [Hseen Hnew].
  fold w' in Hseen, Hnew. fold h h' in Hseen, Hnew.
  destruct (recorded pf id h) eqn:Hrec.
  - destruct (Hseen eq_refl) as (_ & Hg & Hr). rewrite Hg, Hr.
    repeat split; lia.
  - destruct (Hnew eq_refl) as [[Hg Hr] | (_ & Hg & Hr)].
    + rewrite Hg, Hr. repeat split; try lia; discriminate.
    + repeat split; try lia; discriminate.
Qed.

Lemma same_mention_twice_faithful :
  mention_store_faithful Scenario.same_mention_twice.
Proof.
  intros h rows pf id Hrows Hrec. simpl in Hrows. injection Hrows as <-.
  unfold recorded in Hrec.
  induction h as [|e h IH]; simpl in *; [discriminate |].
  destruct e as [A c r| |]; simpl in Hrec; auto.
  destruct c; simpl in Hrec; auto.
  destruct r as [e|[]]; simpl in *.
  - rewrite andb_false_r in Hrec. auto.
  - rewrite andb_true_r in Hrec. unfold same_mention in Hrec.
    destruct (Platform_eqb (NewMention.platform m) pf
              && (NewMention.mention_id m =? id)%string) eqn:Hm.
    + apply andb_prop in Hm as [H1 H2]. rewrite H2, H1. reflexivity.
    + simpl in Hrec. rewrite (IH Hrec). apply orb_true_r.
Qed.

(** The mention reported twice is answered once. *)
Example same_mention_twice_one_reply :
  let w' := snd (processMentions Scenario.config Scenario.same_mention_twice
                   initialWorld) in
  generations_for TWITTER "tw-1" (World.trace w') = 1%nat
  /\ replies_to TWITTER "tw-1" (World.trace w') = 1%nat.
Proof. vm_compute. split; reflexivity. Qed.

(** The hypothesis on the store matters: a table that hides the rows already
    marked replied, and accepts the same mention again, has the same mention
    answered twice. *)
Example unreplied_only_store_answers_twice :
  let w' := snd (processMentions Scenario.config Scenario.unreplied_only
                   initialWorld) in
  replies_to TWITTER "tw-1" (World.trace w') = 2%nat.
Proof. vm_compute. reflexivity. Qed.

Lemma mention_is_answered_once_witness :
  let w' := snd (processMentions Scenario.config Scenario.same_mention_twice
                   initialWorld) in
  (generations_for TWITTER "tw-1" (World.trace w') <= 0 + 1)%nat
  /\ (replies_to TWITTER "tw-1" (World.trace w') <= 0 + 1)%nat.
Proof.
  destruct (mention_is_answered_once Scenario.config
              same_mention_twice_faithful initialWorld TWITTER "tw-1")
    as (_ & Hg & Hr & _).
  split; [exact Hg | exact Hr].
Defined.

(* ================================================================== *)
(** * The trade-entry fan-out *)
(* ================================================================== *)

Section FanOut.

Variable config : Config.t.
Variable env : Env.t.

Ltac publish_paths :=
  repeat answer;
  judge ltac:(simpl; auto);
  try (split; [assumption |]);
  do 3 eexists; reflexivity.

Lemma executeBuy_records d pm :
  emits record_follows_publish (executeBuy config env d pm).
Proof.
  intros w. destruct w as [h g].
  unfold continues, executeBuy, bind, try_catch, call, Date_now, ret; simpl.
  publish_paths.
Qed.

Lemma closeTrade_records d t :
  emits record_follows_publish (closeTrade config env d t).
Proof.
  intros w. destruct w as [h g].
  unfold continues, closeTrade, bind, try_catch, call, Date_now, ret; simpl.
  publish_paths.
Qed.

(** In the decision executor a social post is persisted only right after its
    publication, with the id the platform returned; only the Twitter branch
    asks for that id to be there. *)
Lemma social_posts_follow_publish decisions pm :
  emits record_follows_publish
    (executeTradingDecisions config env decisions pm).
Proof.
  unfold executeTradingDecisions, executeDecision.
  repeat moves_step; try one_event.
  - apply executeBuy_records.
  - apply closeTrade_records.
Qed.

End FanOut.

(** C8.  The two platforms are not treated alike.  When Twitter returns no
    id for the entry post of a BUY, no social post is persisted for Twitter;
    when Farcaster returns no hash, a social post with no post id is
    persisted for Farcaster all the same. *)
Theorem farcaster_null_cast_is_recorded :
  let run env :=
    snd (executeTradingDecisions Scenario.config env [Scenario.buy1] []
           initialWorld) in
  recorded_posts (World.trace (run Scenario.tweet_returns_null))
    = [(FARCASTER, Some "0xcast"%string)]
  /\ recorded_posts (World.trace (run Scenario.cast_returns_null))
     = [(FARCASTER, None); (TWITTER, Some "tweet-1"%string)].
Proof. vm_compute. split; reflexivity. Qed.

(* ================================================================== *)
(** * Shutdown *)
(* ================================================================== *)

(** A SIGINT or SIGTERM that arrives while the loop is suspended, inside an
    iteration or in the sleep between two iterations, sets the running flag to
    false and ends the process at once with code 0: nothing the iteration
    still had to do happens afterwards.  The flag itself is read only at the
    head of the loop: away from the loop head, resuming the main code does the
    same whatever the flag holds. *)
Theorem shutdown_exits_at_once :
  forall config env weiToEth numToString startOfLocalDay p,
    let step :=
      Process.step config env weiToEth numToString startOfLocalDay in
    let run :=
      Process.run config env weiToEth numToString startOfLocalDay in
    (Process.suspended p = true ->
     forall s inputs,
       step (Process.Deliver s) p
         = Process.mk (set_isRunning false (Process.world p)) (Process.Exited 0)
       /\ run inputs (step (Process.Deliver s) p) = step (Process.Deliver s) p)
    /\ (Process.phase p <> Process.LoopHead ->
        forall b,
          step Process.Resume (Process.with_flag b p)
            = Process.with_flag b (step Process.Resume p)).
Proof.
  intros config env weiToEth numToString startOfLocalDay p step run.
  split.
  - intros Hs s inputs.
    assert (Hstep : step (Process.Deliver s) p
                    = Process.mk (set_isRunning false (Process.world p))
                        (Process.Exited 0)).
    { subst step. unfold Process.step, Process.suspended in *.
      destruct p as [w ph]; simpl in *.
      destruct ph; try discriminate; destruct s; reflexivity. }
    split; [exact Hstep |]. rewrite Hstep. subst run. unfold Process.run.
    induction inputs as [|i inputs IH]; simpl; [reflexivity |].
    destruct i; exact IH.
  - intros Hp b. subst step. unfold Process.step, Process.with_flag.
    destruct p as [[tr g] ph]; simpl in *.
    destruct ph as [|pending final| |code].
    + contradiction.
    + destruct pending; simpl; [destruct final as [tr' g'] |]; reflexivity.
    + unfold Process.resume; simpl.
      destruct (Env.respond env tr _); reflexivity.
    + reflexivity.
Qed.

Lemma shutdown_exits_at_once_witness :
  let step :=
    Process.step Scenario.config Scenario.calm Scenario.weiToEth
      Scenario.numToString Scenario.startOfLocalDay in
  let run :=
    Process.run Scenario.config Scenario.calm Scenario.weiToEth
      Scenario.numToString Scenario.startOfLocalDay in
  let p := run [Process.Resume; Process.Resume] (Process.start initialWorld) in
  step (Process.Deliver SIGTERM) p
    = Process.mk (set_isRunning false (Process.world p)) (Process.Exited 0)
  /\ step Process.Resume (Process.with_flag false p)
     = Process.with_flag false (step Process.Resume p).
Proof.
  intros step run p.
  destruct (shutdown_exits_at_once Scenario.config Scenario.calm
              Scenario.weiToEth Scenario.numToString Scenario.startOfLocalDay p)
    as [Hexit Hflag].
  split.
  - apply (Hexit eq_refl SIGTERM []).
  - apply Hflag. vm_compute. discriminate.
Defined.

(** C9.  The handlers do not let the iteration in flight finish.  A SIGINT
    that arrives after the first call of an iteration, with 28 events of the
    iteration still to come, lowers the flag and ends the process there and
    then with code 0: the history stays as it was, and resuming the process
    any number of times changes nothing.  The flag the handler has just
    lowered is never read again. *)
Theorem signal_ends_iteration_in_flight :
  let step :=
    Process.step Scenario.config Scenario.calm Scenario.weiToEth
      Scenario.numToString Scenario.startOfLocalDay in
  let run :=
    Process.run Scenario.config Scenario.calm Scenario.weiToEth
      Scenario.numToString Scenario.startOfLocalDay in
  let p := run [Process.Resume; Process.Resume] (Process.start initialWorld) in
  let p' := step (Process.Deliver SIGINT) p in
  List.length (World.trace (Process.world p)) = 1%nat
  /\ List.length (Process.pending p) = 28%nat
  /\ isRunning (Process.world p) = true
  /\ Process.phase p' = Process.Exited 0
  /\ isRunning (Process.world p') = false
  /\ World.trace (Process.world p') = World.trace (Process.world p)
  /\ run [Process.Resume; Process.Resume; Process.Resume] p' = p'.
Proof. vm_compute. repeat split; reflexivity. Qed.

(* ================================================================== *)
(** * Failure isolation *)
(* ================================================================== *)

Lemma never_throws_ret A (a : A) : never_throws (ret a).
Proof. intros w. exists a. reflexivity. Qed.

Lemma never_throws_bind A B (m : M A) (k : A -> M B) :
  never_throws m -> (forall a, never_throws (k a)) -> never_throws (bind m k).
Proof.
  intros Hm Hk w. unfold bind. destruct (Hm w) as [a Ha].
  destruct (m w) as [[e|a'] w1]; simpl in Ha; [discriminate |]. apply Hk.
Qed.

Lemma never_throws_try_catch A (m : M A) (h : Exn -> M A) :
  (forall e, never_throws (h e)) -> never_throws (try_catch m h).
Proof.
  intros Hh w. unfold try_catch.
  destruct (m w) as [[e|a] w1]; [apply Hh | exists a; reflexivity].
Qed.

Lemma never_throws_for_of A (l : list A) (body : A -> M unit) :
  (forall x, never_throws (body x)) -> never_throws (for_of l body).
Proof.
  intros Hb. induction l as [|x xs IH]; simpl.
  - apply never_throws_ret.
  - apply never_throws_bind; auto.
Qed.

Lemma never_throws_for_fold A S (l : list A) (body : A -> S -> M S) :
  (forall x s, never_throws (body x s)) ->
  forall s, never_throws (for_fold l s body).
Proof.
  intros Hb. induction l as [|x xs IH]; simpl; intros s.
  - apply never_throws_ret.
  - apply never_throws_bind; auto.
Qed.

Lemma never_throws_Date_now env : never_throws (Date_now env).
Proof. intros w. eexists. reflexivity. Qed.

Lemma never_throws_Math_random env : never_throws (Math_random env).
Proof. intros w. eexists. reflexivity. Qed.

Lemma never_throws_get_lastDailySummary : never_throws get_lastDailySummary.
Proof. intros w. eexists. reflexivity. Qed.

Lemma never_throws_get_lastTipTime : never_throws get_lastTipTime.
Proof. intros w. eexists. reflexivity. Qed.

Lemma never_throws_put_lastDailySummary v : never_throws (put_lastDailySummary v).
Proof. intros w. eexists. reflexivity. Qed.

Lemma never_throws_put_lastTipTime v : never_throws (put_lastTipTime v).
Proof. intros w. eexists. reflexivity. Qed.

Ltac never_throws_step :=
  match goal with
  | |- never_throws (bind _ _) => apply never_throws_bind; [| intros ?]
  | |- never_throws (try_catch _ _) => apply never_throws_try_catch; intros ?
  | |- never_throws (ret _) => apply never_throws_ret
  | |- never_throws (for_of _ _) => apply never_throws_for_of; intros ?
  | |- never_throws (for_fold _ _ _) => apply never_throws_for_fold; intros ? ?
  | |- never_throws (Date_now _) => apply never_throws_Date_now
  | |- never_throws (Math_random _) => apply never_throws_Math_random
  | |- never_throws get_lastDailySummary => apply never_throws_get_lastDailySummary
  | |- never_throws get_lastTipTime => apply never_throws_get_lastTipTime
  | |- never_throws (put_lastDailySummary _) => apply never_throws_put_lastDailySummary
  | |- never_throws (put_lastTipTime _) => apply never_throws_put_lastTipTime
  | |- never_throws (if ?b then _ else _) => destruct b
  | |- never_throws (match ?x with _ => _ end) => destruct x
  | |- never_throws (let (_, _) := ?x in _) => destruct x
  end.

#[export] Instance adds_none_preorder p : PreOrder (adds_none p).
Proof.
  split.
  - intros w. reflexivity.
  - intros a b c Hab Hbc. unfold adds_none in *. congruence.
Qed.

Lemma adds_none_push p w e : p e = false -> adds_none p w (push e w).
Proof. intros H. unfold adds_none, occurrences. simpl. rewrite H. reflexivity. Qed.

(** Events and writes that are not of the kind counted. *)
Ltac other_event :=
  match goal with
  | |- adds_none _ ?w (push _ ?w) => apply adds_none_push; reflexivity
  | |- adds_none _ ?w (set_lastDailySummary _ ?w) => reflexivity
  | |- adds_none _ ?w (set_lastTipTime _ ?w) => reflexivity
  end.

Lemma returns_ret A (v : A) : returns v (ret v).
Proof. intros w a H. simpl in H. congruence. Qed.

Lemma returns_bind A B (v : B) (m : M A) (k : A -> M B) :
  (forall a, returns v (k a)) -> returns v (bind m k).
Proof.
  intros Hk w b. unfold bind. destruct (m w) as [[e|a] w1]; simpl.
  - discriminate.
  - apply Hk.
Qed.

(** A part that never throws and always returns [v] hands the world on. *)
Lemma finish A (m : M A) (v : A) (R : World.t -> World.t -> Prop)
    (P : (Exn + A) * World.t -> Prop) w0 w :
  never_throws m ->
  returns v m ->
  moves R m ->
  w0 = w ->
  (forall w', R w0 w' -> P (inr v, w')) ->
  P (m w).
Proof.
  intros Hn Hr Hm <- HP. destruct (Hn w0) as [a Ha].
  pose proof (Hr w0 a Ha) as ->. specialize (Hm w0).
  destruct (m w0) as [r w']; simpl in *. subst r. apply HP. exact Hm.
Qed.

Section Isolation.
Variable config : Config.t.
Variable env : Env.t.
Variable weiToEth : Z -> float.
Variable numToString : float -> string.
Variable startOfLocalDay : Z -> Z.

Lemma healthCheck_never_throws :
  never_throws (healthCheck env weiToEth numToString).
Proof. unfold healthCheck. repeat never_throws_step. Qed.

Lemma postCommentary_never_throws a : never_throws (postCommentary env a).
Proof. unfold postCommentary. repeat never_throws_step. Qed.

Lemma executeTradingDecisions_never_throws ds pm :
  never_throws (executeTradingDecisions config env ds pm).
Proof. unfold executeTradingDecisions, executeDecision. repeat never_throws_step. Qed.

Lemma processMentions_never_throws : never_throws (processMentions config env).
Proof. unfold processMentions. repeat never_throws_step. Qed.

Lemma postDailySummary_never_throws :
  never_throws (postDailySummary env weiToEth startOfLocalDay).
Proof. unfold postDailySummary. repeat never_throws_step. Qed.

Lemma postRoundSummary_never_throws p :
  never_throws (postRoundSummary config env p).
Proof. unfold postRoundSummary. repeat never_throws_step. Qed.

Lemma tipDisbursement_never_throws : never_throws (tipDisbursement config env).
Proof. unfold tipDisbursement, pickTipRecipient. repeat never_throws_step. Qed.

Lemma runOneIteration_never_throws :
  never_throws (runOneIteration config env weiToEth numToString startOfLocalDay).
Proof. unfold runOneIteration. repeat never_throws_step. Qed.


Lemma iterationBody_outcome_notable w w1 :
  adds_none is_notable_processed w w1 ->
  let run := iterationBody config env weiToEth startOfLocalDay w1 in
  match fst run with
  | inl _ => adds_none is_notable_processed w (snd run)
  | inr r =>
      r = IterationResult.mk true "Iteration complete"
      /\ occurrences is_notable_processed (World.trace (snd run))
         = S (occurrences is_notable_processed (World.trace w))
  end.
Proof.
  intros H0.
  set (P := fun rw : (Exn + IterationResult.t) * World.t =>
              match fst rw with
              | inl _ => adds_none is_notable_processed w (snd rw)
              | inr r =>
                  r = IterationResult.mk true "Iteration complete"
                  /\ occurrences is_notable_processed (World.trace (snd rw))
                     = S (occurrences is_notable_processed (World.trace w))
              end).
  change (P (iterationBody config env weiToEth startOfLocalDay w1)).
  unfold iterationBody, afterAnalysis.
  assert (Habort : forall e wk, adds_none is_notable_processed w wk -> P (inl e, wk)).
  { intros e wk Hk. exact Hk. }
  repeat match goal with
         | |- P (bind (call _ ProcessNotableTrades) _ _) => fail 1
         | |- P (bind _ _ _) =>
             eapply bind_step with (R := adds_none is_notable_processed);
             [exact _ | eassumption | | exact Habort | intros ? ? ?]
         end.
  9: {
    rewrite bind_run, call_run.
    match goal with
    | H : adds_none _ w ?wk |- context [Env.respond env (World.trace ?wk) ?c] =>
        destruct (Env.respond env (World.trace wk) c) as [e|[]] eqn:E;
        [ apply Habort; etransitivity;
          [exact H | apply adds_none_push; reflexivity]
        | eapply finish with (R := adds_none is_notable_processed)
                             (v := IterationResult.mk true "Iteration complete")
                             (w0 := push (Ev c (inr tt)) wk) ]
    end.
    - repeat never_throws_step.
      + apply processMentions_never_throws.
      + apply postDailySummary_never_throws.
      + apply postRoundSummary_never_throws.
      + apply tipDisbursement_never_throws.
    - repeat (apply returns_bind; intros ?). apply returns_ret.
    - unfold processMentions, processTwitterMention, processFarcasterMention,
        postDailySummary, postRoundSummary, tipDisbursement, pickTipRecipient.
      repeat moves_step; other_event.
    - reflexivity.
    - intros w' Hw'. subst P. simpl. split; [reflexivity |].
      unfold adds_none, occurrences in *. simpl in *. congruence. }
  all: unfold openPositionsWithPrices, positionView, postCommentary,
         executeTradingDecisions, executeDecision, executeBuy, closeTrade.
  all: repeat moves_step; other_event.
Qed.

End Isolation.

(** X1.  The health check, the commentary posts, the decision executor, the
    mention responder, the daily digest, the round summary, the tip
    disbursement and the iteration as a whole never throw, whatever their
    collaborators do: every failure inside them is caught there. *)
Theorem isolated_steps_never_throw :
  forall config env weiToEth numToString startOfLocalDay,
    never_throws (healthCheck env weiToEth numToString)
    /\ (forall analysis, never_throws (postCommentary env analysis))
    /\ (forall decisions marketPrices,
          never_throws (executeTradingDecisions config env decisions marketPrices))
    /\ never_throws (processMentions config env)
    /\ never_throws (postDailySummary env weiToEth startOfLocalDay)
    /\ (forall roundParams, never_throws (postRoundSummary config env roundParams))
    /\ never_throws (tipDisbursement config env)
    /\ never_throws
         (runOneIteration config env weiToEth numToString startOfLocalDay).
Proof.
  intros. repeat split; intros.
  - apply healthCheck_never_throws.
  - apply postCommentary_never_throws.
  - apply executeTradingDecisions_never_throws.
  - apply processMentions_never_throws.
  - apply postDailySummary_never_throws.
  - apply postRoundSummary_never_throws.
  - apply tipDisbursement_never_throws.
  - apply runOneIteration_never_throws.
Qed.

(** X2.  An iteration always returns a result, and the result is
    [ok = true] (with the message "Iteration complete") exactly when the
    iteration got as far as [processNotableTrades] and that call succeeded:
    the steps after it (mentions, digest, round summary, tip) cannot fail the
    iteration, and every step before it either is isolated or ends the
    iteration with [ok = false]. *)
Theorem iteration_ok_iff_notable_trades_processed :
  forall config env weiToEth numToString startOfLocalDay w,
    let run :=
      runOneIteration config env weiToEth numToString startOfLocalDay w in
    exists result,
      fst run = inr result
      /\ occurrences is_notable_processed (World.trace (snd run))
         = (occurrences is_notable_processed (World.trace w)
            + (if IterationResult.ok result then 1 else 0))%nat
      /\ (IterationResult.ok result = true ->
          IterationResult.message result = "Iteration complete"%string).
Proof.
  intros config env weiToEth numToString startOfLocalDay w run. subst run.
  unfold runOneIteration, try_catch. rewrite bind_run.
  assert (Hh : moves (adds_none is_notable_processed)
                 (healthCheck env weiToEth numToString)).
  { unfold healthCheck. repeat moves_step; other_event. }
  specialize (Hh w).
  destruct (healthCheck env weiToEth numToString w) as [[e|healthy] w1];
    simpl in Hh.
  - eexists. split; [reflexivity |]. simpl. split; [| discriminate].
    rewrite Hh. lia.
  - destruct healthy; simpl.
    + pose proof (@iterationBody_outcome_notable config env weiToEth
                    startOfLocalDay w w1 Hh) as Hb.
      cbv zeta in Hb.
      destruct (iterationBody config env weiToEth startOfLocalDay w1)
        as [[e|r] w2]; simpl in Hb |- *.
      * eexists. split; [reflexivity |]. simpl. split; [| discriminate].
        rewrite Hb. lia.
      * destruct Hb as [-> Hc]. eexists. split; [reflexivity |]. simpl.
        split; [rewrite Hc; lia | reflexivity].
    + eexists. split; [reflexivity |]. simpl. split; [| discriminate].
      rewrite Hh. lia.
Qed.

(* ================================================================== *)
(** * Outcomes path by path *)
(* ================================================================== *)

(** Rules for [wp]: one per construct of the monad.  A call is followed for
    every answer the collaborator can give. *)

Lemma wp_ret A (a : A) Q w : Q (inr a) w -> wp (ret a) Q w.
Proof. exact (fun H => H). Qed.

Lemma wp_throw A e (Q : Exn + A -> World.t -> Prop) w :
  Q (inl e) w -> wp (throw e) Q w.
Proof. exact (fun H => H). Qed.

Lemma wp_bind A B (m : M A) (k : A -> M B) Q w :
  wp m (fun r w1 =>
          match r with
          | inr a => wp (k a) Q w1
          | inl e => Q (inl e) w1
          end) w ->
  wp (bind m k) Q w.
Proof. unfold wp, bind. destruct (m w) as [[e|a] w1]; simpl; auto. Qed.

Lemma wp_try_catch A (m : M A) (h : Exn -> M A) Q w :
  wp m (fun r w1 =>
          match r with
          | inr a => Q (inr a) w1
          | inl e => wp (h e) Q w1
          end) w ->
  wp (try_catch m h) Q w.
Proof. unfold wp, try_catch. destruct (m w) as [[e|a] w1]; simpl; auto. Qed.

Lemma wp_call env A (c : Call A) Q w :
  (forall r, r = Env.respond env (World.trace w) c -> Q r (push (Ev c r) w)) ->
  wp (call env c) Q w.
Proof. intros H. unfold wp, call. simpl. apply H. reflexivity. Qed.

Lemma wp_Date_now env Q w :
  (forall t, t = Env.clock env (World.trace w) -> Q (inr t) (push (EvClock t) w)) ->
  wp (Date_now env) Q w.
Proof. intros H. unfold wp, Date_now. simpl. apply H. reflexivity. Qed.

Lemma wp_Math_random env Q w :
  (forall x, x = Env.random env (World.trace w) -> Q (inr x) (push (EvRandom x) w)) ->
  wp (Math_random env) Q w.
Proof. intros H. unfold wp, Math_random. simpl. apply H. reflexivity. Qed.


Lemma wp_weaken A (m : M A) (Q Q' : Exn + A -> World.t -> Prop) w :
  wp m Q w -> (forall r w', Q r w' -> Q' r w') -> wp m Q' w.
Proof. unfold wp. auto. Qed.

Lemma wp_get_lastTipTime Q w :
  Q (inr (lastTipTime w)) w -> wp get_lastTipTime Q w.
Proof. exact (fun H => H). Qed.

Lemma wp_get_lastDailySummary Q w :
  Q (inr (lastDailySummary w)) w -> wp get_lastDailySummary Q w.
Proof. exact (fun H => H). Qed.

Lemma wp_put_lastTipTime v Q w :
  Q (inr tt) (set_lastTipTime v w) -> wp (put_lastTipTime v) Q w.
Proof. exact (fun H => H). Qed.

Lemma wp_put_lastDailySummary v Q w :
  Q (inr tt) (set_lastDailySummary v w) -> wp (put_lastDailySummary v) Q w.
Proof. exact (fun H => H). Qed.

Lemma moves_wp A (R : World.t -> World.t -> Prop) (m : M A) :
  (forall w, wp m (fun _ w' => R w w') w) -> moves R m.
Proof. exact (fun H => H). Qed.

Ltac wp_step :=
  lazymatch goal with
  | |- wp get_lastTipTime _ _ => apply wp_get_lastTipTime
  | |- wp get_lastDailySummary _ _ => apply wp_get_lastDailySummary
  | |- wp (put_lastTipTime _) _ _ => apply wp_put_lastTipTime
  | |- wp (put_lastDailySummary _) _ _ => apply wp_put_lastDailySummary
  | |- wp (bind _ _) _ _ => apply wp_bind
  | |- wp (try_catch _ _) _ _ => apply wp_try_catch
  | |- wp (ret _) _ _ => apply wp_ret
  | |- wp (throw _) _ _ => apply wp_throw
  | |- wp (call _ _) _ _ => apply wp_call; intros [?|?] ?
  | |- wp (Date_now _) _ _ => apply wp_Date_now; intros ? ?
  | |- wp (Math_random _) _ _ => apply wp_Math_random; intros ? ?
  | |- wp (if ?b then _ else _) _ _ => destruct b eqn:?
  | |- wp (match ?x with _ => _ end) _ _ => destruct x eqn:?
  end; cbv beta iota zeta.

Lemma for_fold_cons A S (x : A) xs (s : S) (body : A -> S -> M S) :
  for_fold (x :: xs) s body = bind (body x s) (fun s1 => for_fold xs s1 body).
Proof. reflexivity. Qed.

Lemma occurrences_app p h1 h2 :
  occurrences p (h1 ++ h2) = (occurrences p h1 + occurrences p h2)%nat.
Proof. unfold occurrences. rewrite filter_app, length_app. reflexivity. Qed.

Lemma occurrences_le p q h :
  (forall e, p e = true -> q e = true) ->
  (occurrences p h <= occurrences q h)%nat.
Proof.
  intros H. unfold occurrences. induction h as [|e h IH]; simpl; [lia |].
  destruct (p e) eqn:E.
  - rewrite (H e E). simpl. lia.
  - destruct (q e); simpl; lia.
Qed.

Ltac prefix_of l base :=
  lazymatch l with
  | base => constr:(@nil Event)
  | ?e :: ?l' => let p := prefix_of l' base in constr:(e :: p)
  end.

(** The events added on the path at hand. *)
Ltac the_news :=
  simpl World.trace;
  lazymatch goal with
  | |- exists news, ?l = news ++ ?b /\ _ =>
      let p := prefix_of l b in exists p; split; [reflexivity |]
  end.


(* ================================================================== *)
(** * The decision executor, by numbers *)
(* ================================================================== *)

Lemma executor_news_app b1 s1 n1 b2 s2 n2 news1 news2 :
  executor_news b1 s1 n1 news1 ->
  executor_news b2 s2 n2 news2 ->
  executor_news (b1 + b2) (s1 + s2) (n1 + n2) (news2 ++ news1).
Proof.
  unfold executor_news. rewrite !occurrences_app.
  intros (A1 & B1 & C1 & D1 & E1 & F1 & G1 & H1 & I1 & J1)
         (A2 & B2 & C2 & D2 & E2 & F2 & G2 & H2 & I2 & J2).
  repeat split; lia.
Qed.

Ltac tally_leaf :=
  first [exists 1%nat; split;
           [reflexivity
           | repeat split; unfold occurrences; simpl; (reflexivity || lia)]
        | exists 0%nat; split;
           [f_equal; f_equal; lia
           | repeat split; unfold occurrences; simpl; (reflexivity || lia)]].

Section Tally.
Variable config : Config.t.
Variable env : Env.t.

Lemma executeDecision_tally pm d executed skipped w :
  wp (executeDecision config env pm d (executed, skipped))
     (fun r w' =>
        exists news,
          World.trace w' = news ++ World.trace w
          /\ exists n,
               r = inr (executed + Z.of_nat n,
                        if is_hold d then skipped + 1 else skipped)
               /\ executor_news (bnat (is_buy d)) (bnat (is_sell d)) n news) w.
Proof.
  unfold executeDecision, is_hold, is_buy, is_sell, executor_news.
  destruct (Decision.action d).
  - unfold executeBuy. repeat wp_step; the_news; tally_leaf.
  - unfold closeTrade. repeat wp_step; the_news; tally_leaf.
  - repeat wp_step; the_news; tally_leaf.
Qed.

Lemma for_fold_tally pm ds :
  forall executed skipped w,
    wp (for_fold ds (executed, skipped) (executeDecision config env pm))
       (fun r w' =>
          exists news,
            World.trace w' = news ++ World.trace w
            /\ exists n skipped',
                 r = inr (executed + Z.of_nat n, skipped')
                 /\ executor_news (List.length (filter is_buy ds))
                      (List.length (filter is_sell ds)) n news) w.
Proof.
  induction ds as [|d ds IH]; intros executed skipped w; simpl for_fold.
  - apply wp_ret. exists []. split; [reflexivity |].
    exists 0%nat, skipped. split; [f_equal; f_equal; lia |].
    unfold executor_news, occurrences. simpl. repeat split; lia.
  - apply wp_bind.
    eapply wp_weaken; [apply executeDecision_tally |].
    intros r w1 (news1 & Ht1 & n1 & -> & T1).
    eapply wp_weaken; [apply IH |].
    intros r w2 (news2 & Ht2 & n2 & skipped' & -> & T2).
    exists (news2 ++ news1). split.
    { rewrite Ht2, Ht1, app_assoc. reflexivity. }
    exists (n1 + n2)%nat, skipped'. split.
    { f_equal. f_equal. lia. }
    pose proof (executor_news_app T1 T2) as T.
    simpl filter. unfold is_buy at 1, is_sell at 1.
    unfold is_buy, is_sell, bnat in T.
    destruct (Decision.action d); simpl in *; exact T.
Qed.

Lemma executeTradingDecisions_tally ds pm w :
  wp (executeTradingDecisions config env ds pm)
     (fun r w' =>
        exists news,
          World.trace w' = news ++ World.trace w
          /\ exists n,
               r = inr (Z.of_nat n)
               /\ executor_news (List.length (filter is_buy ds))
                    (List.length (filter is_sell ds)) n news) w.
Proof.
  unfold executeTradingDecisions. apply wp_bind.
  eapply wp_weaken; [apply for_fold_tally |].
  intros r w1 (news & Ht & n & skipped' & -> & T).
  apply wp_ret. exists news. split; [exact Ht |].
  exists n. split; [reflexivity | exact T].
Qed.

(** HOLD decisions: the counter of skipped decisions plays no part in what
    the executor does or returns. *)
Lemma executeDecision_skipped pm d executed skipped skipped' w :
  snd (executeDecision config env pm d (executed, skipped) w)
  = snd (executeDecision config env pm d (executed, skipped') w)
  /\ drop_skipped (fst (executeDecision config env pm d (executed, skipped) w))
     = drop_skipped (fst (executeDecision config env pm d (executed, skipped') w)).
Proof.
  unfold executeDecision. destruct (Decision.action d).
  - unfold try_catch, bind.
    destruct (executeBuy config env d pm w) as [[e|[]] w1]; simpl; auto.
  - unfold try_catch, bind at 1 3 5 7.
    destruct (call env GetOpenTrades w) as [[e|openTrades] w1]; simpl; auto.
    destruct (find _ openTrades) as [t|]; simpl; auto.
    unfold bind. destruct (closeTrade config env d t w1) as [[e|[]] w2]; simpl; auto.
  - simpl. auto.
Qed.

Lemma executeDecision_hold pm d executed skipped :
  is_hold d = true ->
  executeDecision config env pm d (executed, skipped) = ret (executed, skipped + 1).
Proof.
  unfold is_hold, executeDecision.
  destruct (Decision.action d); intros H; try discriminate. reflexivity.
Qed.

Lemma for_fold_without_hold pm ds :
  forall executed skipped skipped' w,
    snd (for_fold ds (executed, skipped) (executeDecision config env pm) w)
    = snd (for_fold (filter (fun d => negb (is_hold d)) ds) (executed, skipped')
             (executeDecision config env pm) w)
    /\ drop_skipped
         (fst (for_fold ds (executed, skipped) (executeDecision config env pm) w))
       = drop_skipped
           (fst (for_fold (filter (fun d => negb (is_hold d)) ds)
                   (executed, skipped') (executeDecision config env pm) w)).
Proof.
  induction ds as [|d ds IH]; intros executed skipped skipped' w.
  - simpl. auto.
  - simpl filter. destruct (is_hold d) eqn:Eh; simpl negb; cbv iota.
    + rewrite for_fold_cons, (executeDecision_hold pm d executed skipped Eh).
      unfold bind, ret. apply IH.
    + rewrite !for_fold_cons. unfold bind.
      destruct (executeDecision_skipped pm d executed skipped skipped' w)
        as [Hw Hr].
      destruct (executeDecision config env pm d (executed, skipped) w)
        as [[e|[ex1 sk1]] w1];
      destruct (executeDecision config env pm d (executed, skipped') w)
        as [[e'|[ex1' sk1']] w1']; simpl in Hw, Hr; subst; try discriminate.
      * simpl. auto.
      * injection Hr as ->. apply IH.
Qed.
End Tally.


(** X3.  Whatever the decisions, the collaborators and the world,
    [executeTradingDecisions] submits exactly one order ([executeTrade]) per
    BUY decision and reads the open trades exactly once per SELL decision; it
    writes a trade ([createTrade]) exactly once per order that went through,
    closes at most one position per SELL decision, and updates a trade
    ([updateTrade]) exactly once per position it closed.  The counts are over
    the events the call adds to the history. *)
Theorem executor_calls_follow_decisions :
  forall config env decisions marketPrices w,
    let run := executeTradingDecisions config env decisions marketPrices w in
    exists news,
      World.trace (snd run) = news ++ World.trace w
      /\ occurrences is_ExecuteTrade news = List.length (filter is_buy decisions)
      /\ occurrences is_GetOpenTrades news = List.length (filter is_sell decisions)
      /\ occurrences is_CreateTrade news = occurrences is_order_filled news
      /\ (occurrences is_ClosePosition news
          <= List.length (filter is_sell decisions))%nat
      /\ occurrences is_UpdateTrade news = occurrences is_position_closed news.
Proof.
  intros. subst run.
  destruct (executeTradingDecisions_tally config env decisions marketPrices w)
    as (news & Ht & n & _ & T).
  exists news. split; [exact Ht |].
  unfold executor_news in T. tauto.
Qed.

(** X4.  [executeTradingDecisions] always returns, and the number it returns
    is the number of trades it persisted: the successful [createTrade] calls
    plus the successful [updateTrade] calls it made.  An order that went
    through on chain but whose database write failed is not counted.  There is
    at most one persisted opening per BUY decision and one persisted closing
    per SELL decision. *)
Theorem executed_counts_persisted_trades :
  forall config env decisions marketPrices w,
    let run := executeTradingDecisions config env decisions marketPrices w in
    exists news,
      World.trace (snd run) = news ++ World.trace w
      /\ fst run
         = inr (Z.of_nat (occurrences is_trade_opened news
                          + occurrences is_trade_closed news))
      /\ (occurrences is_trade_opened news
          <= List.length (filter is_buy decisions))%nat
      /\ (occurrences is_trade_closed news
          <= List.length (filter is_sell decisions))%nat.
Proof.
  intros. subst run.
  destruct (executeTradingDecisions_tally config env decisions marketPrices w)
    as (news & Ht & n & Hr & T).
  exists news. split; [exact Ht |].
  destruct T as (A & B & C & D & E & F & _).
  split; [rewrite Hr, F; reflexivity |].
  assert (occurrences is_trade_opened news <= occurrences is_CreateTrade news)%nat
    by (apply occurrences_le; intros e He; unfold is_trade_opened in He;
        apply andb_prop in He; tauto).
  assert (occurrences is_order_filled news <= occurrences is_ExecuteTrade news)%nat
    by (apply occurrences_le; intros e He; unfold is_order_filled in He;
        apply andb_prop in He; tauto).
  assert (occurrences is_trade_closed news <= occurrences is_UpdateTrade news)%nat
    by (apply occurrences_le; intros e He; unfold is_trade_closed in He;
        apply andb_prop in He; tauto).
  assert (occurrences is_position_closed news <= occurrences is_ClosePosition news)%nat
    by (apply occurrences_le; intros e He; unfold is_position_closed in He;
        apply andb_prop in He; tauto).
  lia.
Qed.

(** X5.  For every trade [executeTradingDecisions] persists, the post of the
    trade is generated exactly once for Twitter and exactly once for
    Farcaster: an entry post per successful [createTrade], an exit post per
    successful [updateTrade].  A failure on the Twitter side (generation,
    posting or recording) does not stop the Farcaster side, and no post is
    generated for a trade that was not persisted. *)
Theorem persisted_trade_is_announced_on_both_platforms :
  forall config env decisions marketPrices w,
    let run := executeTradingDecisions config env decisions marketPrices w in
    exists news,
      World.trace (snd run) = news ++ World.trace w
      /\ occurrences (is_entry_post TWITTER) news = occurrences is_trade_opened news
      /\ occurrences (is_entry_post FARCASTER) news = occurrences is_trade_opened news
      /\ occurrences (is_exit_post TWITTER) news = occurrences is_trade_closed news
      /\ occurrences (is_exit_post FARCASTER) news = occurrences is_trade_closed news.
Proof.
  intros. subst run.
  destruct (executeTradingDecisions_tally config env decisions marketPrices w)
    as (news & Ht & n & _ & T).
  exists news. split; [exact Ht |].
  unfold executor_news in T. tauto.
Qed.

(** X6.  HOLD decisions change nothing: [executeTradingDecisions] returns the
    same number and leaves the same world (the same calls with the same
    arguments in the same order) as on the list of decisions with the HOLD
    ones removed. *)
Theorem hold_decisions_change_nothing :
  forall config env decisions marketPrices w,
    executeTradingDecisions config env decisions marketPrices w
    = executeTradingDecisions config env
        (filter (fun d => negb (is_hold d)) decisions) marketPrices w.
Proof.
  intros. unfold executeTradingDecisions, bind.
  destruct (for_fold_without_hold config env marketPrices decisions 0 0 0 w)
    as [Hw Hr].
  destruct (for_fold decisions (0, 0) (executeDecision config env marketPrices) w)
    as [[e|[ex sk]] w1];
  destruct (for_fold (filter (fun d => negb (is_hold d)) decisions) (0, 0)
              (executeDecision config env marketPrices) w)
    as [[e'|[ex' sk']] w1']; simpl in Hw, Hr; subst; try discriminate.
  - congruence.
  - injection Hr as ->. reflexivity.
Qed.

(* ================================================================== *)
(** * What a BUY writes *)
(* ================================================================== *)

Section Buy.
Variable config : Config.t.
Variable env : Env.t.

Lemma executeBuy_ok decisions pm d w :
  In d decisions ->
  Decision.action d = BUY ->
  wp (executeBuy config env d pm)
     (fun _ w' => continues (buy_events_ok config decisions pm) w w') w.
Proof.
  intros Hin Hbuy. unfold executeBuy, continues.
  repeat wp_step; simpl World.trace.
  all: judge ltac:(simpl; auto).
  all: try (eexists; split; [reflexivity | reflexivity]).
  all: try (do 2 eexists; split; [reflexivity | repeat split; reflexivity]).
  all: try (do 3 eexists; split; [reflexivity | reflexivity]).
  all: try (exists d; repeat split; try assumption;
            unfold order_of; destruct (Map_get pm (Decision.marketId d));
            destruct (Decision.position d); reflexivity).
Qed.

Lemma executeDecision_buy_ok decisions pm d cs :
  In d decisions ->
  emits (buy_events_ok config decisions pm) (executeDecision config env pm d cs).
Proof.
  intros Hin. unfold executeDecision. destruct cs as [executed skipped].
  destruct (Decision.action d) eqn:Ea.
  - repeat moves_step. intros w. apply (executeBuy_ok decisions pm d w Hin Ea).
  - unfold closeTrade. repeat moves_step; one_event.
  - repeat moves_step.
Qed.

Lemma for_fold_buy_ok decisions pm ds :
  (forall d, In d ds -> In d decisions) ->
  forall cs,
    emits (buy_events_ok config decisions pm)
      (for_fold ds cs (executeDecision config env pm)).
Proof.
  induction ds as [|d ds IH]; intros Hin cs.
  - simpl. repeat moves_step.
  - rewrite for_fold_cons. unfold emits. rule moves_bind.
    + apply executeDecision_buy_ok. apply Hin. left. reflexivity.
    + intros cs'. apply IH. intros d' Hd'. apply Hin. right. exact Hd'.
Qed.
End Buy.

Lemma executeTradingDecisions_buy_ok config env decisions marketPrices w :
  continues (buy_events_ok config decisions marketPrices) w
    (snd (executeTradingDecisions config env decisions marketPrices w)).
Proof.
  revert w. change (emits (buy_events_ok config decisions marketPrices)
    (executeTradingDecisions config env decisions marketPrices)).
  unfold executeTradingDecisions, emits. rule moves_bind.
  - apply for_fold_buy_ok. auto.
  - intros cs. moves_step.
Qed.

(** X7.  Whatever the decisions, the price map, the collaborators and the
    world, every order [executeTradingDecisions] submits is the order of a BUY
    decision of the batch: its market, position and amount, and as expected
    price the price the map holds for that market and side, 5000 when the map
    has no entry for the market.  Every [createTrade] follows at once an
    [executeTrade] that succeeded and stores what the chain answered: the
    resolved market id when there is one and the id of the order otherwise,
    the actual price, the transaction hash and the timestamp, with
    [amount_usd = amountEth * ethUsdPrice] and status OPEN.  The entry posts
    repeat the order and the fill, and every TRADE_ENTRY post recorded points
    to the trade row just created. *)
Theorem buy_row_stores_the_fill :
  forall config env decisions marketPrices w,
    continues (buy_events_ok config decisions marketPrices) w
      (snd (executeTradingDecisions config env decisions marketPrices w)).
Proof. intros. apply executeTradingDecisions_buy_ok. Qed.

(* ================================================================== *)
(** * Tips *)
(* ================================================================== *)

Lemma JS_index_In A (arr : list A) i a : JS.index arr i = Some a -> In a arr.
Proof.
  unfold JS.index. destruct (JS.to_integer i) as [z|]; [| discriminate].
  destruct (z <? 0); [discriminate |]. apply nth_error_In.
Qed.

Section Tip.
Variable config : Config.t.
Variable env : Env.t.

Lemma tipDisbursement_as_configured :
  emits (tip_as_configured config) (tipDisbursement config env).
Proof.
  apply moves_wp. intros w. unfold tipDisbursement, pickTipRecipient, continues.
  repeat wp_step; simpl World.trace.
  all: judge ltac:(simpl; auto).
  all: try (simpl in *; discriminate).
  all: match goal with
       | H : JS.truthy (JS.index ?l ?i) = true |- _ =>
           destruct (JS.index l i) as [a|] eqn:Ei; [| discriminate H];
           simpl in H
       end.
  all: match goal with
       | H : negb _ && _ = true |- _ =>
           apply andb_prop in H; destruct H as [Hd _];
           apply negb_true_iff in Hd
       end.
  all: repeat split; try assumption; try reflexivity.
  all: try (eapply JS_index_In; eassumption).
  all: intros ->; discriminate.
Qed.

Lemma runOneIteration_tips weiToEth numToString startOfLocalDay :
  emits (tip_as_configured config)
    (runOneIteration config env weiToEth numToString startOfLocalDay).
Proof.
  unfold runOneIteration, healthCheck, iterationBody, openPositionsWithPrices,
    positionView, afterAnalysis, postCommentary, executeTradingDecisions,
    executeDecision, executeBuy, closeTrade, processMentions,
    processTwitterMention, processFarcasterMention, postDailySummary,
    postRoundSummary.
  repeat moves_step; try one_event.
  all: apply tipDisbursement_as_configured.
Qed.
End Tip.

(** X9.  Every tip an iteration sends goes to one of the addresses of
    [config.tipRecipients], never to the empty string, in the amount
    [config.tipAmountEth], and only when tips are not disabled; no other part
    of the iteration sends a tip.  In particular no tip is sent when no
    recipient is configured. *)
Theorem tips_go_to_configured_recipients :
  forall config env weiToEth numToString startOfLocalDay w,
    continues (tip_as_configured config) w
      (snd (runOneIteration config env weiToEth numToString startOfLocalDay w)).
Proof. intros. apply runOneIteration_tips. Qed.

(* ================================================================== *)
(** * The iteration as a whole *)
(* ================================================================== *)

Ltac prefix_to l base :=
  lazymatch l with
  | base => constr:(@nil Event)
  | ?e :: ?l' => let p := prefix_to l' base in constr:(e :: p)
  | ?n ++ ?l' => let p := prefix_to l' base in constr:(n ++ p)
  end.

(** The events added on the path at hand, given what each part added. *)
Ltac gather :=
  simpl World.trace;
  repeat match goal with
         | H : World.trace ?w = _ ++ World.trace _ |- context [World.trace ?w] =>
             rewrite H; simpl World.trace
         end.

Ltac all_news :=
  gather;
  lazymatch goal with
  | |- exists news, ?l = news ++ ?b /\ _ =>
      let p := prefix_to l b in
      exists p; split;
      [repeat (progress (simpl; rewrite <- ?app_assoc)); reflexivity |]
  end.

Lemma occurrences_cons p e h :
  occurrences p (e :: h) = (bnat (p e) + occurrences p h)%nat.
Proof. unfold occurrences. simpl. destruct (p e); reflexivity. Qed.

Lemma occurrences_nil p : occurrences p [] = 0%nat.
Proof. reflexivity. Qed.

Lemma occurrences_none p news :
  Forall (fun e => p e = false) news -> occurrences p news = 0%nat.
Proof.
  induction 1 as [|e l He _ IH]; [reflexivity |].
  rewrite occurrences_cons, He, IH. reflexivity.
Qed.

Lemma quiet_none p news :
  (forall e, p e = true -> is_trading e = true) ->
  quiet news -> occurrences p news = 0%nat.
Proof.
  intros Hp Hq. apply occurrences_none.
  eapply Forall_impl; [| exact Hq]. intros e He. simpl in He.
  destruct (p e) eqn:E; [| reflexivity]. rewrite (Hp e E) in He. discriminate.
Qed.

Lemma quiet_counts news :
  quiet news ->
  occurrences is_AnalyzeMarkets news = 0%nat
  /\ occurrences is_ExecuteTrade news = 0%nat
  /\ occurrences is_order_filled news = 0%nat
  /\ occurrences is_CreateTrade news = 0%nat
  /\ occurrences is_trade_opened news = 0%nat
  /\ occurrences is_ClosePosition news = 0%nat
  /\ occurrences is_position_closed news = 0%nat
  /\ occurrences is_UpdateTrade news = 0%nat
  /\ occurrences is_trade_closed news = 0%nat.
Proof.
  intros H. repeat split; apply quiet_none; try exact H; intros e He;
    unfold is_trading, is_order_filled, is_position_closed, is_trade_opened,
      is_trade_closed in *;
    repeat match goal with
           | H : _ && _ = true |- _ => apply andb_prop in H; destruct H
           end;
    repeat match goal with H : _ = true |- _ => rewrite H end;
    rewrite ?orb_true_r; reflexivity.
Qed.

Lemma no_round_summary_is P news :
  no_round_summary news -> Forall (round_summary_is P) news.
Proof.
  apply Forall_impl. intros e He. destruct e as [A c r| |]; simpl; auto.
  destruct c; simpl in *; auto; discriminate.
Qed.

Lemma round_summary_is_weaken (P P' : RoundParams.t -> Prop) news :
  (forall p, P p -> P' p) ->
  Forall (round_summary_is P) news -> Forall (round_summary_is P') news.
Proof.
  intros HP. apply Forall_impl. intros e. destruct e as [A c r| |]; simpl; auto.
  destruct c; simpl; auto. intros [? ?]. auto.
Qed.

Lemma quiet_orders pm ds news : quiet news -> Forall (order_from pm ds) news.
Proof.
  apply Forall_impl. intros e He. destruct e as [A c r| |]; simpl; auto.
  destruct c; simpl in *; auto; discriminate.
Qed.

Lemma price_map_copy markets :
  price_map (map (fun m => Market.mk (Market.id m) (Market.name m)
                             (Market.yesPrice m) (Market.noPrice m)
                             (Market.volume24h m)) markets)
  = price_map markets.
Proof. unfold price_map. rewrite map_map. reflexivity. Qed.

Lemma still_news (P : Event -> Prop) w w' :
  continues (fun _ e => P e) w w' ->
  exists news, World.trace w' = news ++ World.trace w /\ Forall P news.
Proof.
  intros H. destruct (@continues_events _ _ _ H) as (events & Ht & HF).
  exists (rev events). split; [exact Ht | apply Forall_rev; exact HF].
Qed.

(** What a part that neither trades nor writes the round summary adds. *)
Lemma wp_quiet A (m : M A) (Q : Exn + A -> World.t -> Prop) w :
  emits (fun _ e => is_trading e = false /\ is_round_summary e = false) m ->
  (forall r w' news,
     World.trace w' = news ++ World.trace w ->
     quiet news -> no_round_summary news -> Q r w') ->
  wp m Q w.
Proof.
  intros Hm HQ. unfold wp.
  destruct (@still_news _ _ _ (Hm w)) as (news & Ht & HF).
  apply Forall_and_inv in HF. destruct HF as [Hq Hn].
  apply HQ with (news := news); assumption.
Qed.

Lemma wp_quiet_total A (m : M A) (Q : Exn + A -> World.t -> Prop) w :
  never_throws m ->
  emits (fun _ e => is_trading e = false /\ is_round_summary e = false) m ->
  (forall a w' news,
     World.trace w' = news ++ World.trace w ->
     quiet news -> no_round_summary news -> Q (inr a) w') ->
  wp m Q w.
Proof.
  intros Hn Hm HQ. unfold wp. destruct (Hn w) as [a ->].
  destruct (@still_news _ _ _ (Hm w)) as (news & Ht & HF).
  apply Forall_and_inv in HF. destruct HF as [Hq Hr].
  apply HQ with (news := news); assumption.
Qed.

Lemma promise_all_settled_length A B (f : A -> M B) l :
  forall w, List.length (fst (promise_all_settled f l w)) = List.length l.
Proof.
  induction l as [|x xs IH]; intros w; simpl; [reflexivity |].
  destruct (f x w) as [r w1]. specialize (IH w1).
  destruct (promise_all_settled f xs w1) as [rs w2]. simpl in *.
  f_equal. exact IH.
Qed.

Lemma fulfilments_length B (rs : list (Exn + B)) :
  rejections rs = [] -> List.length (fulfilments rs) = List.length rs.
Proof.
  induction rs as [|[e|b] rs IH]; simpl; intros H;
    [reflexivity | discriminate | f_equal; apply IH; exact H].
Qed.

Lemma promise_all_map_length A B first (f : A -> M B) l :
  forall w bs,
    fst (promise_all_map first f l w) = inr bs ->
    List.length bs = List.length l.
Proof.
  intros w bs. unfold promise_all_map.
  pose proof (promise_all_settled_length f l w) as Hl.
  destruct (promise_all_settled f l w) as [rs w1]. simpl in Hl.
  destruct (rejections rs) eqn:Er; simpl; [| discriminate].
  intros H. injection H as <-. rewrite fulfilments_length; assumption.
Qed.

Section Quiet.
Variable config : Config.t.
Variable env : Env.t.
Variable weiToEth : Z -> float.
Variable numToString : float -> string.
Variable startOfLocalDay : Z -> Z.

Lemma healthCheck_quiet :
  emits (fun _ e => is_trading e = false /\ is_round_summary e = false)
    (healthCheck env weiToEth numToString).
Proof. unfold healthCheck. repeat moves_step; one_event. Qed.

Lemma openPositionsWithPrices_quiet ts :
  emits (fun _ e => is_trading e = false /\ is_round_summary e = false)
    (openPositionsWithPrices env ts).
Proof. unfold openPositionsWithPrices, positionView. repeat moves_step; one_event. Qed.

Lemma postCommentary_quiet a :
  emits (fun _ e => is_trading e = false /\ is_round_summary e = false)
    (postCommentary env a).
Proof. unfold postCommentary. repeat moves_step; one_event. Qed.

Lemma processMentions_quiet :
  emits (fun _ e => is_trading e = false /\ is_round_summary e = false)
    (processMentions config env).
Proof.
  unfold processMentions, processTwitterMention, processFarcasterMention.
  repeat moves_step; one_event.
Qed.

Lemma postDailySummary_quiet :
  emits (fun _ e => is_trading e = false /\ is_round_summary e = false)
    (postDailySummary env weiToEth startOfLocalDay).
Proof. unfold postDailySummary. repeat moves_step; one_event. Qed.

Lemma tipDisbursement_quiet :
  emits (fun _ e => is_trading e = false /\ is_round_summary e = false)
    (tipDisbursement config env).
Proof. unfold tipDisbursement, pickTipRecipient. repeat moves_step; one_event. Qed.

Lemma executeTradingDecisions_no_analysis ds pm :
  emits (fun _ e => is_AnalyzeMarkets e = false /\ is_round_summary e = false)
    (executeTradingDecisions config env ds pm).
Proof.
  unfold executeTradingDecisions, executeDecision, executeBuy, closeTrade.
  repeat moves_step; one_event.
Qed.

Lemma executeTradingDecisions_orders ds pm w :
  continues (fun _ e => order_from pm ds e) w
    (snd (executeTradingDecisions config env ds pm w)).
Proof.
  eapply since_weaken; [| apply executeTradingDecisions_buy_ok].
  intros h e. unfold buy_events_ok, order_from.
  destruct e as [A c r| |]; auto. destruct c; auto.
Qed.

Lemma executeTradingDecisions_trades ds pm w :
  wp (executeTradingDecisions config env ds pm)
     (fun r w' =>
        exists news,
          World.trace w' = news ++ World.trace w
          /\ occurrences is_AnalyzeMarkets news = 0%nat
          /\ no_round_summary news
          /\ Forall (order_from pm ds) news
          /\ exists n,
               r = inr (Z.of_nat n)
               /\ executor_news (List.length (filter is_buy ds))
                    (List.length (filter is_sell ds)) n news) w.
Proof.
  pose proof (executeTradingDecisions_tally config env ds pm w) as H.
  pose proof (executeTradingDecisions_no_analysis ds pm w) as Hna.
  pose proof (executeTradingDecisions_orders ds pm w) as Hor.
  unfold wp in *. destruct H as (news & Ht & n & Hr & T).
  destruct (@still_news _ _ _ Hna) as (news' & Ht' & HF).
  rewrite Ht in Ht'. apply app_inv_tail in Ht'. subst news'.
  destruct (@still_news _ _ _ Hor) as (news' & Ht' & HO).
  rewrite Ht in Ht'. apply app_inv_tail in Ht'. subst news'.
  apply Forall_and_inv in HF. destruct HF as [Ha Hn].
  exists news. split; [exact Ht |].
  split; [apply occurrences_none; exact Ha |].
  split; [exact Hn |]. split; [exact HO | exists n; auto].
Qed.

(** The round summary: at most one template call, for Farcaster, with the
    figures given. *)
Lemma postRoundSummary_reports p w :
  wp (postRoundSummary config env p)
     (fun r w' =>
        r = inr tt
        /\ exists news,
             World.trace w' = news ++ World.trace w
             /\ quiet news
             /\ (occurrences is_round_summary news <= 1)%nat
             /\ Forall (round_summary_is (fun p' => p' = p)) news) w.
Proof.
  unfold postRoundSummary.
  repeat wp_step; (split; [reflexivity |]); the_news;
    (split; [repeat (apply Forall_cons || apply Forall_nil); reflexivity |]);
    (split; [unfold occurrences; simpl; lia |]);
    repeat (apply Forall_cons || apply Forall_nil); simpl; auto.
Qed.

Ltac count_news :=
  repeat match goal with
         | H : quiet _ |- _ => apply quiet_counts in H
         end;
  unfold trades_as_decided, executor_news in *;
  repeat (rewrite occurrences_app || rewrite occurrences_cons
          || rewrite occurrences_nil); simpl;
  repeat split; lia.

Ltac one_round :=
  repeat match goal with
         | H : no_round_summary _ |- _ => apply occurrences_none in H
         end;
  repeat (rewrite occurrences_app || rewrite occurrences_cons
          || rewrite occurrences_nil); simpl; lia.

Ltac order_news :=
  repeat first [ apply Forall_nil
               | apply Forall_cons; [exact I |]
               | apply Forall_app; split
               | assumption
               | apply quiet_orders; assumption ].

Ltac round_news :=
  repeat first [ apply Forall_nil
               | apply Forall_cons; [exact I |]
               | apply Forall_app; split
               | apply no_round_summary_is; assumption ].

Lemma afterAnalysis_tally pv ots md a w :
  wp (afterAnalysis config env weiToEth startOfLocalDay pv ots md a)
     (fun _ w' =>
        exists after,
          World.trace w' = after ++ World.trace w
          /\ trades_as_decided a after
          /\ (occurrences is_round_summary after <= 1)%nat
          /\ Forall (round_summary_is
                       (round_figures pv (List.length ots)
                          (List.length (MarketData.markets md)) a after))
               after
          /\ Forall (order_from (price_map (MarketData.markets md))
                       (Analysis.decisions a)) after) w.
Proof.
  unfold afterAnalysis.
  apply wp_bind. apply wp_quiet_total;
    [apply postCommentary_never_throws | apply postCommentary_quiet |].
  intros [] w1 n1 Hn1 Q1 R1.
  apply wp_bind. eapply wp_weaken; [apply executeTradingDecisions_trades |].
  intros r w2 (n2 & Hn2 & A2 & R2 & O2 & n & -> & T2).
  apply wp_bind.
  wp_step;
    [all_news; split;
       [count_news | split; [one_round | split; [round_news | order_news]]] |].
  apply wp_bind. apply wp_quiet_total;
    [apply processMentions_never_throws | apply processMentions_quiet |].
  intros [] w3 n3 Hn3 Q3 R3.
  apply wp_bind. apply wp_quiet_total;
    [apply postDailySummary_never_throws | apply postDailySummary_quiet |].
  intros [] w4 n4 Hn4 Q4 R4.
  apply wp_bind. eapply wp_weaken; [apply postRoundSummary_reports |].
  intros r5 w5 (-> & n5 & Hn5 & Q5 & C5 & R5).
  apply wp_bind. apply wp_quiet_total;
    [apply tipDisbursement_never_throws | apply tipDisbursement_quiet |].
  intros [] w6 n6 Hn6 Q6 R6.
  wp_step. all_news. split; [count_news |]. split; [one_round |].
  split; [| order_news].
  round_news.
  eapply round_summary_is_weaken; [| exact R5].
  intros p ->. unfold round_figures. simpl.
  repeat split.
  f_equal.
  repeat match goal with
         | H : quiet _ |- _ => apply quiet_counts in H
         end.
  unfold executor_news in T2.
  repeat (rewrite occurrences_app || rewrite occurrences_cons
          || rewrite occurrences_nil); simpl. lia.
Qed.


Lemma openPositionsWithPrices_views ts w :
  wp (openPositionsWithPrices env ts)
     (fun r w' =>
        (forall views, r = inr views -> List.length views = List.length ts)
        /\ exists news,
             World.trace w' = news ++ World.trace w
             /\ quiet news /\ no_round_summary news) w.
Proof.
  unfold wp. split.
  - intros views H. eapply promise_all_map_length. exact H.
  - destruct (@still_news _ _ _ (openPositionsWithPrices_quiet ts w))
      as (news & Ht & HF).
    apply Forall_and_inv in HF. destruct HF as [Hq Hn].
    exists news. auto.
Qed.

Ltac quiet_news :=
  unfold quiet, no_round_summary in *;
  repeat first [ assumption
               | apply Forall_nil
               | apply Forall_cons; [reflexivity |]
               | apply Forall_app; split ].

Ltac stopped := wp_step; all_news; left; split; quiet_news.

Lemma runOneIteration_news w :
  wp (runOneIteration config env weiToEth numToString startOfLocalDay)
     (fun _ w' =>
        exists news,
          World.trace w' = news ++ World.trace w /\ iteration_news news) w.
Proof.
  unfold runOneIteration.
  apply wp_try_catch. apply wp_bind. apply wp_quiet_total;
    [apply healthCheck_never_throws | apply healthCheck_quiet |].
  intros healthy w1 n1 Hn1 Q1 R1.
  destruct healthy; simpl negb; cbv iota.
  2: { wp_step. all_news. left. split; quiet_news. }
  unfold iterationBody.
  apply wp_bind. wp_step; [stopped |].
  apply wp_bind. wp_step; [stopped |].
  apply wp_bind. wp_step; [stopped |].
  apply wp_bind. eapply wp_weaken; [apply openPositionsWithPrices_views |].
  intros r2 w2 (Hlen & n2 & Hn2 & Q2 & R2).
  destruct r2 as [e|positions]; [stopped |].
  specialize (Hlen positions eq_refl).
  apply wp_bind. wp_step; [stopped |].
  apply wp_bind. wp_step.
  { wp_step. all_news. right. left.
    match goal with
    | |- context [Ev (AnalyzeMarkets ?pv ?ps ?ms ?nc) (inl ?e) :: ?before] =>
        exists before, pv, ps, ms, nc, e
    end.
    split; [reflexivity | split; quiet_news]. }
  eapply wp_weaken; [apply afterAnalysis_tally |].
  intros r w3 (after & Hn3 & T3 & C3 & F3 & O3).
  assert (exists news, World.trace w3 = news ++ World.trace w /\ iteration_news news)
    as Hdone.
  { all_news. right. right.
    match goal with
    | |- context [after ++ Ev (AnalyzeMarkets ?pv ?ps ?ms ?nc) (inr ?a) :: ?before] =>
        exists before, after, pv, ps, ms, nc, a
    end.
    split; [reflexivity |]. split; [quiet_news |]. split; [quiet_news |].
    split; [exact T3 |]. split; [exact C3 |].
    rewrite length_map, Hlen, price_map_copy. split; [exact F3 | exact O3]. }
  destruct r; [wp_step |]; exact Hdone.
Qed.

End Quiet.

(** X8.  The events an iteration adds to the history, newest first, have one
    of three shapes.  The iteration stopped before the analysis: no call to
    the analyzer, no order, no close and no write to the trades.  Or the
    analysis failed: it is the last event, with none of these before it.  Or
    the events split at the one analysis that succeeded: none of these before
    it, and after it no further analysis, exactly one order per BUY decision
    of this analysis, at most one close per SELL decision, one [createTrade]
    per order that went through and one [updateTrade] per position closed. *)
Theorem iteration_trades_as_the_analysis_decided :
  forall config env weiToEth numToString startOfLocalDay w,
    let run := runOneIteration config env weiToEth numToString startOfLocalDay w in
    exists news,
      World.trace (snd run) = news ++ World.trace w
      /\ (quiet news
          \/ (exists before pv ps ms nc error,
                news = Ev (AnalyzeMarkets pv ps ms nc) (inl error) :: before
                /\ quiet before)
          \/ exists before after pv ps ms nc analysis,
               news = after ++ Ev (AnalyzeMarkets pv ps ms nc) (inr analysis) :: before
               /\ quiet before
               /\ occurrences is_AnalyzeMarkets after = 0%nat
               /\ occurrences is_ExecuteTrade after
                  = List.length (filter is_buy (Analysis.decisions analysis))
               /\ occurrences is_CreateTrade after = occurrences is_order_filled after
               /\ (occurrences is_ClosePosition after
                   <= List.length (filter is_sell (Analysis.decisions analysis)))%nat
               /\ occurrences is_UpdateTrade after
                  = occurrences is_position_closed after).
Proof.
  intros.
  destruct (runOneIteration_news config env weiToEth numToString startOfLocalDay w)
    as (news & Ht & [[Hq _]|[Hf|Hs]]); exists news; (split; [exact Ht |]).
  - left. exact Hq.
  - right. left. destruct Hf as (before & pv & ps & ms & nc & error & -> & Hq & _).
    exists before, pv, ps, ms, nc, error. auto.
  - right. right.
    destruct Hs as (before & after & pv & ps & ms & nc & a & -> & Hq & _ & T & _).
    exists before, after, pv, ps, ms, nc, a. unfold trades_as_decided in T. tauto.
Qed.

(** X12.  An iteration writes at most one round summary, for Farcaster, and
    only after an analysis that succeeded.  Its figures are those of the
    round: the portfolio value handed to the analyzer, the number of positions
    and of markets handed to the analyzer, the number of decisions the
    analyzer returned, the number of trades persisted since (successful
    [createTrade] and [updateTrade] calls), and whether the commentary has a
    character that is not white space. *)
Theorem round_summary_reports_the_iteration :
  forall config env weiToEth numToString startOfLocalDay w,
    let run := runOneIteration config env weiToEth numToString startOfLocalDay w in
    exists news,
      World.trace (snd run) = news ++ World.trace w
      /\ (no_round_summary news
          \/ exists before after pv ps ms nc analysis,
               news = after ++ Ev (AnalyzeMarkets pv ps ms nc) (inr analysis) :: before
               /\ no_round_summary before
               /\ (occurrences is_round_summary after <= 1)%nat
               /\ Forall (round_summary_is
                            (round_figures pv (List.length ps) (List.length ms)
                               analysis after)) after).
Proof.
  intros.
  destruct (runOneIteration_news config env weiToEth numToString startOfLocalDay w)
    as (news & Ht & [[_ Hn]|[Hf|Hs]]); exists news; (split; [exact Ht |]).
  - left. exact Hn.
  - left. destruct Hf as (before & pv & ps & ms & nc & error & -> & _ & Hn).
    apply Forall_cons; [reflexivity | exact Hn].
  - right.
    destruct Hs as (before & after & pv & ps & ms & nc & a & -> & _ & Hn & _ & C & F & _).
    exists before, after, pv, ps, ms, nc, a. auto.
Qed.

(** X17.  An iteration submits no order before an analysis has succeeded,
    and every order it submits afterwards is the order of a BUY decision of
    that analysis, priced from the markets that were handed to the analyzer.  *)
Theorem orders_are_priced_from_the_markets_analysed :
  forall config env weiToEth numToString startOfLocalDay w,
    let run := runOneIteration config env weiToEth numToString startOfLocalDay w in
    exists news,
      World.trace (snd run) = news ++ World.trace w
      /\ (occurrences is_ExecuteTrade news = 0%nat
          \/ exists before after pv ps ms nc analysis,
               news = after ++ Ev (AnalyzeMarkets pv ps ms nc) (inr analysis) :: before
               /\ occurrences is_ExecuteTrade before = 0%nat
               /\ Forall (order_from (price_map ms) (Analysis.decisions analysis))
                    after).
Proof.
  intros.
  destruct (runOneIteration_news config env weiToEth numToString startOfLocalDay w)
    as (news & Ht & [[Hq _]|[Hf|Hs]]); exists news; (split; [exact Ht |]).
  - left. apply quiet_counts in Hq. tauto.
  - left. destruct Hf as (before & pv & ps & ms & nc & error & -> & Hq & _).
    rewrite occurrences_cons. apply quiet_counts in Hq. simpl. tauto.
  - right.
    destruct Hs as (before & after & pv & ps & ms & nc & a & -> & Hq & _ & _ & _ & _ & O).
    exists before, after, pv, ps, ms, nc, a. apply quiet_counts in Hq. tauto.
Qed.

(* ================================================================== *)
(** * The life of the process *)
(* ================================================================== *)

Section Loop.
Variable config : Config.t.
Variable env : Env.t.
Variable weiToEth : Z -> float.
Variable numToString : float -> string.
Variable startOfLocalDay : Z -> Z.


Lemma resume_running_or_failed p :
  running_or_failed p -> running_or_failed (Process.resume config env weiToEth numToString startOfLocalDay p).
Proof.
  unfold running_or_failed, Process.resume.
  destruct p as [[h [flag lds ltt]] ph]. simpl.
  destruct ph as [|pending final| |code]; simpl.
  - unfold isRunning. simpl. intros ->. simpl. reflexivity.
  - destruct pending as [|e pending]; simpl; auto.
  - intros Hflag.
    destruct (Env.respond env h (Sleep (Config.loopIntervalMs config)))
      as [error|[]]; simpl.
    + split; [reflexivity |]. do 3 eexists. reflexivity.
    + exact Hflag.
  - auto.
Qed.

Lemma run_exited inputs w code :
  Process.run config env weiToEth numToString startOfLocalDay inputs
    (Process.mk w (Process.Exited code))
  = Process.mk w (Process.Exited code).
Proof.
  unfold Process.run.
  induction inputs as [|i inputs IH]; simpl; [reflexivity |].
  destruct i; exact IH.
Qed.

Lemma run_running_or_failed inputs :
  forall p,
    running_or_failed p ->
    (Process.phase (Process.run config env weiToEth numToString startOfLocalDay inputs p) = Process.Exited 0
     /\ exists s, In (Process.Deliver s) inputs)
    \/ running_or_failed (Process.run config env weiToEth numToString startOfLocalDay inputs p).
Proof.
  induction inputs as [|i inputs IH]; intros p Hp.
  - right. exact Hp.
  - change (Process.run config env weiToEth numToString startOfLocalDay (i :: inputs) p) with (Process.run config env weiToEth numToString startOfLocalDay inputs (Process.step config env weiToEth numToString startOfLocalDay i p)).
    destruct i as [|s].
    + assert (Hs : running_or_failed (Process.step config env weiToEth numToString startOfLocalDay Process.Resume p)).
      { unfold Process.step. pose proof (resume_running_or_failed p Hp) as Hr.
        destruct (Process.phase p) eqn:E; try exact Hr.
        exact Hp. }
      destruct (IH _ Hs) as [[He [s Hin]]|Hr].
      * left. split; [exact He |]. exists s. right. exact Hin.
      * right. exact Hr.
    + destruct (Process.phase p) as [|pending final| |code] eqn:E.
      * left. split; [| exists s; left; reflexivity].
        unfold Process.step. rewrite E.
        destruct s; unfold Process.onSignal, Process.process_exit; simpl;
          rewrite run_exited; reflexivity.
      * left. split; [| exists s; left; reflexivity].
        unfold Process.step. rewrite E.
        destruct s; unfold Process.onSignal, Process.process_exit; simpl;
          rewrite run_exited; reflexivity.
      * left. split; [| exists s; left; reflexivity].
        unfold Process.step. rewrite E.
        destruct s; unfold Process.onSignal, Process.process_exit; simpl;
          rewrite run_exited; reflexivity.
      * right. destruct p as [w ph]. simpl in E. subst ph.
        unfold Process.step. simpl. rewrite run_exited. exact Hp.
Qed.

End Loop.

(** X10.  Once started, the process ends in two ways only, whatever the
    signals and however the awaited promises settle: with code 0, and then a
    signal was delivered; or with code 1, and then the last thing that
    happened is a [sleep] that rejected.  As long as it has not ended, the
    flag [isRunning] is up: the condition of [while (isRunning)] is never
    found false, and a failed iteration never stops the loop. *)
Theorem only_a_signal_or_a_failed_sleep_ends_the_process :
  forall config env weiToEth numToString startOfLocalDay inputs w,
    let p :=
      Process.run config env weiToEth numToString startOfLocalDay inputs
        (Process.start w) in
    match Process.phase p with
    | Process.Exited code =>
        (code = 0 /\ exists s, In (Process.Deliver s) inputs)
        \/ (code = 1 /\ sleep_rejected (World.trace (Process.world p)))
    | _ => isRunning (Process.world p) = true
    end.
Proof.
  intros.
  assert (H0 : running_or_failed (Process.start w)).
  { unfold running_or_failed, Process.start. simpl.
    destruct w as [h [flag lds ltt]]. reflexivity. }
  destruct (run_running_or_failed config env weiToEth numToString
              startOfLocalDay inputs (Process.start w) H0) as [[He Hs]|Hr]; fold p in He || fold p in Hr.
  - rewrite He. left. split; [reflexivity | exact Hs].
  - unfold running_or_failed in Hr.
    destruct (Process.phase p); try exact Hr. right. exact Hr.
Qed.

(* ================================================================== *)
(** * The figures of the digest *)
(* ================================================================== *)

(** X11.  The daily digest is one set of figures: the summary for Farcaster
    is generated from the figures of the summary for Twitter, and the
    portfolio snapshot written at the end stores the same total value, number
    of open positions and daily P&L, whatever happened to the two posts in
    between. *)
Theorem digest_snapshot_stores_the_figures_posted :
  forall env weiToEth startOfLocalDay w,
    continues digest_is_consistent w
      (snd (postDailySummary env weiToEth startOfLocalDay w)).
Proof.
  intros. change (wp (postDailySummary env weiToEth startOfLocalDay)
                    (fun _ w' => continues digest_is_consistent w w') w).
  unfold postDailySummary, continues.
  repeat wp_step; simpl World.trace.
  all: judge ltac:(simpl; auto).
  all: eexists; split; [reflexivity | repeat split; reflexivity].
Qed.

(* ================================================================== *)
(** * The mention responder, by numbers *)
(* ================================================================== *)

Lemma mentions_news_app n1 n2 news1 news2 :
  mentions_news n1 news1 -> mentions_news n2 news2 ->
  mentions_news (n1 + n2) (news2 ++ news1).
Proof.
  unfold mentions_news. rewrite !occurrences_app.
  intros (A1 & B1 & C1 & D1) (A2 & B2 & C2 & D2). repeat split; lia.
Qed.

Lemma for_of_mentions A (body : A -> M unit) l :
  (forall x w,
     wp (body x)
        (fun r w' =>
           r = inr tt
           /\ exists news,
                World.trace w' = news ++ World.trace w /\ mentions_news 1 news) w) ->
  forall w,
    wp (for_of l body)
       (fun r w' =>
          r = inr tt
          /\ exists news,
               World.trace w' = news ++ World.trace w
               /\ mentions_news (List.length l) news) w.
Proof.
  intros Hbody. induction l as [|x xs IH]; intros w; simpl for_of.
  - apply wp_ret. split; [reflexivity |]. exists []. split; [reflexivity |].
    unfold mentions_news, occurrences. simpl. repeat split; lia.
  - apply wp_bind. eapply wp_weaken; [apply Hbody |].
    intros r w1 (-> & n1 & H1 & T1).
    eapply wp_weaken; [apply IH |].
    intros r w2 (-> & n2 & H2 & T2).
    split; [reflexivity |]. exists (n2 ++ n1). split.
    + rewrite H2, H1, app_assoc. reflexivity.
    + apply (mentions_news_app T1 T2).
Qed.

Section Mentions.
Variable config : Config.t.
Variable env : Env.t.

Ltac mention_leaf :=
  repeat match goal with u : unit |- _ => destruct u end;
  (split; [reflexivity |]); the_news;
  unfold mentions_news, occurrences; simpl; repeat split; lia.

Lemma processTwitterMention_news m w :
  wp (processTwitterMention env m)
     (fun r w' =>
        r = inr tt
        /\ exists news,
             World.trace w' = news ++ World.trace w /\ mentions_news 1 news) w.
Proof. unfold processTwitterMention. repeat wp_step; mention_leaf. Qed.

Lemma processFarcasterMention_news m w :
  wp (processFarcasterMention env m)
     (fun r w' =>
        r = inr tt
        /\ exists news,
             World.trace w' = news ++ World.trace w /\ mentions_news 1 news) w.
Proof. unfold processFarcasterMention. repeat wp_step; mention_leaf. Qed.

End Mentions.

(** X13.  [processMentions] always returns.  When mentions are disabled it
    does nothing.  When the fetch of the Twitter mentions fails, that failure
    is all that happens: the Farcaster mentions are not fetched.  Otherwise
    every tweet fetched is handled, then the Farcaster mentions are fetched,
    and every cast fetched is handled: a mention whose handling fails does not
    stop the ones after it.  On each platform the mentions are looked up once
    per mention and once more per reply sent, at most one mention is recorded
    per mention fetched, a reply is generated exactly for the mentions
    recorded, and a reply is sent exactly for the replies generated. *)
Theorem mentions_are_handled_one_by_one :
  forall config env w,
    let run := processMentions config env w in
    fst run = inr tt
    /\ ((Config.disableMentions config = true /\ snd run = w)
        \/ (exists error,
              World.trace (snd run)
              = Ev FetchTwitterMentions (inl error) :: World.trace w)
        \/ exists tweets onTwitter answer onFarcaster,
             World.trace (snd run)
             = onFarcaster ++ Ev FetchFarcasterMentions answer
                 :: onTwitter ++ Ev FetchTwitterMentions (inr tweets)
                 :: World.trace w
             /\ mentions_news (List.length tweets) onTwitter
             /\ match answer with
                | inl _ => onFarcaster = []
                | inr casts => mentions_news (List.length casts) onFarcaster
                end).
Proof.
  intros config env w.
  change (wp (processMentions config env)
            (fun r w' =>
               r = inr tt
               /\ ((Config.disableMentions config = true /\ w' = w)
                   \/ (exists error,
                         World.trace w'
                         = Ev FetchTwitterMentions (inl error) :: World.trace w)
                   \/ exists tweets onTwitter answer onFarcaster,
                        World.trace w'
                        = onFarcaster ++ Ev FetchFarcasterMentions answer
                            :: onTwitter ++ Ev FetchTwitterMentions (inr tweets)
                            :: World.trace w
                        /\ mentions_news (List.length tweets) onTwitter
                        /\ match answer with
                           | inl _ => onFarcaster = []
                           | inr casts =>
                               mentions_news (List.length casts) onFarcaster
                           end)) w).
  unfold processMentions.
  destruct (Config.disableMentions config) eqn:Ed.
  { apply wp_ret. split; [reflexivity |]. left. auto. }
  apply wp_try_catch. apply wp_bind. wp_step.
  { wp_step. split; [reflexivity |]. right. left. eexists. reflexivity. }
  apply wp_bind.
  eapply wp_weaken; [apply for_of_mentions; apply processTwitterMention_news |].
  intros r w1 (-> & tw & H1 & T1).
  apply wp_bind. wp_step.
  { wp_step. split; [reflexivity |]. right. right.
    exists l, tw, (inl e), []. simpl. rewrite H1. auto. }
  eapply wp_weaken; [apply for_of_mentions; apply processFarcasterMention_news |].
  intros r w2 (-> & fc & H2 & T2).
  split; [reflexivity |]. right. right.
  exists l, tw, (inr l0), fc. rewrite H2. simpl. rewrite H1. auto.
Qed.

(* ================================================================== *)
(** * Commentary, alert and the reason of an exit *)
(* ================================================================== *)

(** X14.  [postCommentary] always returns.  With a commentary that is
    missing or empty it does nothing.  Otherwise the reflection is generated
    exactly once for Twitter and exactly once for Farcaster, from the
    commentary, risk assessment and recommendation of the analysis, whatever
    happens on the Twitter side; each platform is posted to at most once; and
    no social post is recorded for a reflection. *)
Theorem commentary_is_posted_on_both_platforms :
  forall env analysis w,
    let run := postCommentary env analysis w in
    fst run = inr tt
    /\ exists news,
         World.trace (snd run) = news ++ World.trace w
         /\ occurrences (is_reflection TWITTER) news
            = bnat (JS.truthy (Analysis.marketCommentary analysis))
         /\ occurrences (is_reflection FARCASTER) news
            = bnat (JS.truthy (Analysis.marketCommentary analysis))
         /\ (occurrences is_PostTweet news <= 1)%nat
         /\ (occurrences is_PostCast news <= 1)%nat
         /\ occurrences is_RecordSocialPost news = 0%nat
         /\ Forall (reflection_of analysis) news.
Proof.
  intros env analysis w.
  change (wp (postCommentary env analysis)
            (fun r w' =>
               r = inr tt
               /\ exists news,
                    World.trace w' = news ++ World.trace w
                    /\ occurrences (is_reflection TWITTER) news
                       = bnat (JS.truthy (Analysis.marketCommentary analysis))
                    /\ occurrences (is_reflection FARCASTER) news
                       = bnat (JS.truthy (Analysis.marketCommentary analysis))
                    /\ (occurrences is_PostTweet news <= 1)%nat
                    /\ (occurrences is_PostCast news <= 1)%nat
                    /\ occurrences is_RecordSocialPost news = 0%nat
                    /\ Forall (reflection_of analysis) news) w).
  unfold postCommentary.
  destruct (Analysis.marketCommentary analysis) as [c|] eqn:Ec;
    [destruct (JS.truthy (Some c)) eqn:Et |]; simpl bnat; cbv iota.
  - repeat wp_step; (split; [reflexivity |]); the_news;
      unfold occurrences; simpl;
      repeat split; try lia;
      repeat (apply Forall_cons || apply Forall_nil); simpl; auto.
  - wp_step. split; [reflexivity |]. exists []. split; [reflexivity |].
    unfold occurrences. simpl. repeat split; try lia. constructor.
  - simpl JS.truthy. cbv iota.
    wp_step. split; [reflexivity |]. exists []. split; [reflexivity |].
    unfold occurrences. simpl. repeat split; try lia. constructor.
Qed.

(** X15.  The health check reads the balance only after
    [hasSufficientBalance] answered [false], tweets at most once, and what it
    tweets is the alert for the balance it has just read.  A check that
    returns [true] has made the one call [hasSufficientBalance], answered
    [true], and nothing else. *)
Theorem alert_is_the_balance_just_read :
  forall env weiToEth numToString w,
    let run := healthCheck env weiToEth numToString w in
    continues (alert_follows_balance weiToEth numToString) w (snd run)
    /\ exists news,
         World.trace (snd run) = news ++ World.trace w
         /\ (occurrences is_PostTweet news <= 1)%nat
         /\ (fst run = inr true -> news = [Ev HasSufficientBalance (inr true)]).
Proof.
  intros env weiToEth numToString w.
  change (wp (healthCheck env weiToEth numToString)
            (fun r w' =>
               continues (alert_follows_balance weiToEth numToString) w w'
               /\ exists news,
                    World.trace w' = news ++ World.trace w
                    /\ (occurrences is_PostTweet news <= 1)%nat
                    /\ (r = inr true -> news = [Ev HasSufficientBalance (inr true)]))
            w).
  unfold healthCheck, continues.
  repeat wp_step; simpl World.trace.
  all: repeat match goal with
              | H : negb ?b = true |- _ => apply negb_true_iff in H; subst b
              | H : negb ?b = false |- _ => apply negb_false_iff in H; subst b
              end.
  all: split;
    [judge ltac:(simpl;
                 first [ exact I
                       | eexists; reflexivity
                       | do 2 eexists; split; reflexivity ]) |].
  all: the_news; split; [unfold occurrences; simpl; lia |].
  all: try (intros; discriminate).
  all: intros _; simpl in *; subst; reflexivity.
Qed.

Lemma SFeqb_same_nan f : SFeqb f f = false -> f = S754_nan.
Proof.
  unfold SFeqb, SFcompare. destruct f as [s|s| |s m e]; try reflexivity.
  - discriminate.
  - destruct s; discriminate.
  - rewrite Z.compare_refl, Pos.compare_refl. destruct s; discriminate.
Qed.

Lemma is_nan_Prim2SF x : is_nan x = true -> Prim2SF x = S754_nan.
Proof.
  unfold is_nan. rewrite eqb_spec. intros H. apply negb_true_iff in H.
  apply SFeqb_same_nan. exact H.
Qed.

(** X16.  A P&L that is not a number is classified as a signal shift,
    whatever the thresholds: both comparisons of [exitReasonOf] are false on
    NaN.  This is the P&L of a trade whose entry price and current price are
    both 0. *)
Theorem nan_pnl_is_a_signal_shift :
  forall config pnlBps,
    is_nan pnlBps = true ->
    exitReasonOf config pnlBps = "Signal shifted; trimming risk."%string.
Proof.
  intros config pnlBps H. apply is_nan_Prim2SF in H.
  unfold exitReasonOf, JS.geb. rewrite !leb_spec, H.
  unfold SFleb, SFcompare. simpl.
  destruct (Prim2SF (Config.takeProfitBps config)); reflexivity.
Qed.

Lemma nan_pnl_is_a_signal_shift_witness :
  is_nan (pnlBpsOf 0 0) = true
  /\ exitReasonOf Scenario.config (pnlBpsOf 0 0)
     = "Signal shifted; trimming risk."%string.
Proof.
  split; [vm_compute; reflexivity |].
  apply nan_pnl_is_a_signal_shift. vm_compute. reflexivity.
Defined.

(* ================================================================== *)
(** * SELL executions: P&L, exit reason, exit post *)
(* ================================================================== *)

Lemma snd_bind_ret A B (m : M A) (g : A -> B) w :
  snd (bind m (fun a => ret (g a)) w) = snd (m w).
Proof. unfold bind, ret. destruct (m w) as [[e|a] w1]; reflexivity. Qed.

Section SellProgress.
Variable config : Config.t.
Variable env : Env.t.

Lemma executeDecision_never_throws pm d cs :
  never_throws (executeDecision config env pm d cs).
Proof. unfold executeDecision. repeat never_throws_step. Qed.

Lemma executeDecision_world pm d cs cs' w :
  snd (executeDecision config env pm d cs w)
  = snd (executeDecision config env pm d cs' w).
Proof.
  destruct cs as [executed skipped], cs' as [executed' skipped'].
  unfold executeDecision. destruct (Decision.action d).
  - unfold try_catch, bind.
    destruct (executeBuy config env d pm w) as [[e|[]] w1]; reflexivity.
  - unfold try_catch, bind at 1 3.
    destruct (call env GetOpenTrades w) as [[e|openTrades] w1]; simpl; auto.
    destruct (find _ openTrades) as [t|]; simpl; auto.
    unfold bind. destruct (closeTrade config env d t w1) as [[e|[]] w2]; reflexivity.
  - reflexivity.
Qed.

Lemma for_fold_world pm ds :
  forall cs cs' w,
    snd (for_fold ds cs (executeDecision config env pm) w)
    = snd (for_fold ds cs' (executeDecision config env pm) w).
Proof.
  induction ds as [|d ds IH]; intros cs cs' w; [reflexivity |].
  rewrite !for_fold_cons. unfold bind.
  pose proof (executeDecision_world pm d cs cs' w) as Hw.
  destruct (executeDecision_never_throws pm d cs w) as [s Hs].
  destruct (executeDecision_never_throws pm d cs' w) as [s' Hs'].
  destruct (executeDecision config env pm d cs w) as [r w1].
  destruct (executeDecision config env pm d cs' w) as [r' w1'].
  simpl in *. subst. apply IH.
Qed.

Lemma for_fold_app_world pm ds1 ds2 :
  forall cs cs' w,
    snd (for_fold (ds1 ++ ds2) cs (executeDecision config env pm) w)
    = snd (for_fold ds2 cs' (executeDecision config env pm)
             (snd (for_fold ds1 cs (executeDecision config env pm) w))).
Proof.
  induction ds1 as [|d ds1 IH]; intros cs cs' w.
  - simpl. apply for_fold_world.
  - simpl app. rewrite !for_fold_cons. unfold bind.
    destruct (executeDecision_never_throws pm d cs w) as [s Hs].
    destruct (executeDecision config env pm d cs w) as [r w1].
    simpl in Hs. subst r. apply IH.
Qed.

Lemma for_fold_extends pm ds cs w :
  exists later,
    World.trace (snd (for_fold ds cs (executeDecision config env pm) w))
    = later ++ World.trace w.
Proof.
  assert (H : emits (fun _ _ => True)
                (for_fold ds cs (executeDecision config env pm))).
  { unfold emits. rule moves_for_fold. intros d s w'.
    eapply since_weaken; [| apply (executeDecision_events config env pm d s w')].
    auto. }
  destruct (@still_news _ _ _ (H w)) as (news & Ht & _). exists news. exact Ht.
Qed.

(** The turn of one decision within a batch: what the batch leaves continues
    what this turn leaves, and this turn starts where the decisions before it
    end. *)
Lemma batch_continues_turn before d after pm cs w :
  exists later,
    World.trace
      (snd (executeTradingDecisions config env (before ++ d :: after) pm w))
    = later
      ++ World.trace
           (snd (executeDecision config env pm d cs
                   (snd (executeTradingDecisions config env before pm w)))).
Proof.
  unfold executeTradingDecisions. rewrite !snd_bind_ret.
  rewrite (for_fold_app_world pm before (d :: after) (0, 0) cs w).
  rewrite for_fold_cons. unfold bind.
  destruct (executeDecision_never_throws pm d cs
              (snd (for_fold before (0, 0) (executeDecision config env pm) w)))
    as [s Hs].
  destruct (executeDecision config env pm d cs _) as [r w1].
  simpl in Hs. subst r. simpl. apply for_fold_extends.
Qed.

(** The answer of a call the environment is known to give. *)
Ltac known :=
  match goal with
  | H : _ = Env.respond _ _ _ |- _ =>
      simpl in H;
      match goal with
      | K : Env.respond _ _ _ = _ |- _ => rewrite K in H
      end;
      first [discriminate H | injection H as <-]
  end.

Ltac prefix_before_update l :=
  lazymatch l with
  | Ev (UpdateTrade _ _) _ :: _ => constr:(@nil Event)
  | ?e :: ?l' => let p := prefix_before_update l' in constr:(e :: p)
  end.

Ltac prefix_before_tweet l :=
  lazymatch l with
  | Ev (GenerateTradeExitPostForPlatform _ TWITTER) _ :: _ => constr:(@nil Event)
  | ?e :: ?l' => let p := prefix_before_tweet l' in constr:(e :: p)
  end.

Lemma executeDecision_sell_updates pm d cs trades t price result w :
  Decision.action d = SELL ->
  tradeToCloseOf d trades = Some t ->
  plays env (sell_calls config d trades t price result) (World.trace w) ->
  exists later answer,
    World.trace (snd (executeDecision config env pm d cs w))
    = later ++ sell_update t price result answer
        :: sell_calls config d trades t price result ++ World.trace w.
Proof.
  intros Hsell Hfind Hplays.
  cbv [plays happens sell_calls app] in Hplays.
  destruct Hplays as (Hclose & Hprice & Hread & _).
  unfold tradeToCloseOf in Hfind.
  change (wp (executeDecision config env pm d cs)
            (fun _ w' =>
               exists later answer,
                 World.trace w'
                 = later ++ sell_update t price result answer
                     :: sell_calls config d trades t price result
                     ++ World.trace w) w).
  destruct cs as [executed skipped].
  unfold executeDecision. rewrite Hsell.
  apply wp_try_catch. apply wp_bind. wp_step; known.
  rewrite Hfind. unfold closeTrade.
  apply wp_bind. apply wp_bind. wp_step; known.
  apply wp_bind. wp_step; known.
  repeat wp_step; simpl World.trace;
    match goal with
    | |- exists later answer, ?l = _ =>
        let p := prefix_before_update l in exists p; eexists; reflexivity
    end.
Qed.

Lemma executeDecision_sell_posts pm d cs trades t price result w :
  Decision.action d = SELL ->
  tradeToCloseOf d trades = Some t ->
  plays env
    (sell_update t price result (inr tt)
     :: sell_calls config d trades t price result) (World.trace w) ->
  exists later answer params,
    World.trace (snd (executeDecision config env pm d cs w))
    = later ++ Ev (GenerateTradeExitPostForPlatform params TWITTER) answer
        :: sell_update t price result (inr tt)
        :: sell_calls config d trades t price result ++ World.trace w
    /\ ExitPostParams.pnlBps params = pnlBpsOf price (Trade.entry_price t)
    /\ ExitPostParams.exitReason params
       = exitReasonOf config (pnlBpsOf price (Trade.entry_price t))
    /\ ExitPostParams.amountEth params = num_0_1
    /\ exists answer',
         In (Ev (GenerateTradeExitPostForPlatform params FARCASTER) answer')
            later.
Proof.
  intros Hsell Hfind Hplays.
  cbv [plays happens sell_update sell_patch sell_calls pnlBpsOf app] in Hplays.
  destruct Hplays as (Hupdate & Hclose & Hprice & Hread & _).
  unfold tradeToCloseOf in Hfind.
  change (wp (executeDecision config env pm d cs)
            (fun _ w' =>
               exists later answer params,
                 World.trace w'
                 = later ++ Ev (GenerateTradeExitPostForPlatform params TWITTER)
                              answer
                     :: sell_update t price result (inr tt)
                     :: sell_calls config d trades t price result
                     ++ World.trace w
                 /\ ExitPostParams.pnlBps params
                    = pnlBpsOf price (Trade.entry_price t)
                 /\ ExitPostParams.exitReason params
                    = exitReasonOf config (pnlBpsOf price (Trade.entry_price t))
                 /\ ExitPostParams.amountEth params = num_0_1
                 /\ exists answer',
                      In (Ev (GenerateTradeExitPostForPlatform params FARCASTER)
                            answer') later) w).
  destruct cs as [executed skipped].
  unfold executeDecision. rewrite Hsell.
  apply wp_try_catch. apply wp_bind. wp_step; known.
  rewrite Hfind. unfold closeTrade.
  apply wp_bind. apply wp_bind. wp_step; known.
  apply wp_bind. wp_step; known.
  apply wp_bind. wp_step; known.
  repeat wp_step; simpl World.trace.
  all:
    match goal with
    | |- exists later answer params, ?l = _ /\ _ =>
        let p := prefix_before_tweet l in
        exists p; do 2 eexists; split; [reflexivity |];
        repeat (split; [reflexivity |]);
        eexists; simpl; tauto
    end.
Qed.
End SellProgress.

Section SellClaims.
Variable config : Config.t.
Variable env : Env.t.

Lemma batch_sell_updates before d after pm w trades t price result :
  Decision.action d = SELL ->
  tradeToCloseOf d trades = Some t ->
  plays env (sell_calls config d trades t price result)
    (World.trace (snd (executeTradingDecisions config env before pm w))) ->
  exists later answer,
    World.trace
      (snd (executeTradingDecisions config env (before ++ d :: after) pm w))
    = later ++ sell_update t price result answer
        :: sell_calls config d trades t price result
        ++ World.trace (snd (executeTradingDecisions config env before pm w)).
Proof.
  intros Hsell Hfind Hplays.
  destruct (batch_continues_turn config env before d after pm (0, 0) w)
    as (later & ->).
  destruct (@executeDecision_sell_updates config env pm d (0, 0) trades t price
              result _ Hsell Hfind Hplays) as (own & answer & ->).
  exists (later ++ own), answer. rewrite <- app_assoc. reflexivity.
Qed.

Lemma batch_sell_posts before d after pm w trades t price result :
  Decision.action d = SELL ->
  tradeToCloseOf d trades = Some t ->
  plays env
    (sell_update t price result (inr tt)
     :: sell_calls config d trades t price result)
    (World.trace (snd (executeTradingDecisions config env before pm w))) ->
  exists later answer params,
    World.trace
      (snd (executeTradingDecisions config env (before ++ d :: after) pm w))
    = later ++ Ev (GenerateTradeExitPostForPlatform params TWITTER) answer
        :: sell_update t price result (inr tt)
        :: sell_calls config d trades t price result
        ++ World.trace (snd (executeTradingDecisions config env before pm w))
    /\ ExitPostParams.pnlBps params = pnlBpsOf price (Trade.entry_price t)
    /\ ExitPostParams.exitReason params
       = exitReasonOf config (pnlBpsOf price (Trade.entry_price t))
    /\ ExitPostParams.amountEth params = num_0_1
    /\ exists answer',
         In (Ev (GenerateTradeExitPostForPlatform params FARCASTER) answer')
            later.
Proof.
  intros Hsell Hfind Hplays.
  destruct (batch_continues_turn config env before d after pm (0, 0) w)
    as (later & ->).
  destruct (@executeDecision_sell_posts config env pm d (0, 0) trades t price
              result _ Hsell Hfind Hplays)
    as (own & answer & params & -> & Hp & Hr & Ha & answer' & Hin).
  exists (later ++ own), answer, params. rewrite <- app_assoc.
  split; [reflexivity |]. repeat (split; [assumption |]).
  exists answer'. apply in_or_app. right. exact Hin.
Qed.
End SellClaims.

(** C2, as stated, fails: the value persisted is the one binary64 arithmetic
    gives, not the exactly rounded ratio, and it need not be an integer.  A
    trade entered at 4000 and sold at 4043 has the exact ratio 107.5 basis
    points, which rounds to 108; the SELL execution persists 107.  With the
    entry price 2^-1000 and the current price 2^1000 the quotient overflows
    and the value is infinite. *)
Lemma pnl_bps_is_rounded_in_binary64 :
  let run :=
    executeTradingDecisions Scenario.config Scenario.near_tie [Scenario.sell3] [] initialWorld in
  option_map TradePatch.pnl_bps (latest_update (World.trace (snd run)))
  = Some 107%float
  /\ JS.round_half_up ((4043 - 4000) * 10000) 4000 = 108
  /\ pnlBpsOf 0x1p+1000 0x1p-1000 = infinity.
Proof. vm_compute. repeat split; reflexivity. Qed.

(** C2, amended.  Take a SELL decision of a batch.  If, when its turn comes,
    the open trades are read, [t] is the first of them on the market of the
    decision, the price of [t] is fetched and the position is closed, then the
    next thing [executeTradingDecisions] does is to call [updateTrade] on [t]
    with the patch of the execution, whose [pnl_bps] is
    [Math.round(((currentPrice - entry_price) / entry_price) * 10000)] in
    binary64 arithmetic, on the price just fetched and the entry price of
    [t]; the position (YES or NO) plays no part in the value.  No other
    [updateTrade] is issued: every one of them follows such a read, fetch and
    close.  Entry 100 and current price 120 give 2000; entry 100 and current
    price 70 give -3000. *)
Theorem sell_persists_pnl_bps :
  forall config env before d after marketPrices w,
    let start :=
      snd (executeTradingDecisions config env before marketPrices w) in
    let run :=
      executeTradingDecisions config env (before ++ d :: after) marketPrices w in
    (Decision.action d = SELL ->
     forall trades t price result,
       tradeToCloseOf d trades = Some t ->
       plays env (sell_calls config d trades t price result)
         (World.trace start) ->
       exists later answer,
         World.trace (snd run)
         = later ++ sell_update t price result answer
             :: sell_calls config d trades t price result
             ++ World.trace start)
    /\ (forall t price result,
          TradePatch.pnl_bps (sell_patch t price result)
          = JS.Math_round
              (((price - Trade.entry_price t) / Trade.entry_price t)
               * 10000)%float)
    /\ continues update_is_justified w (snd run)
    /\ pnlBpsOf 120 100 = 2000%float
    /\ pnlBpsOf 70 100 = (-3000)%float.
Proof.
  intros. split; [| split; [| split; [| split; reflexivity]]].
  - intros Hsell trades t price result Hfind Hplays.
    apply batch_sell_updates; assumption.
  - reflexivity.
  - eapply since_weaken; [| apply executeTradingDecisions_events].
    intros h e H. apply H.
Qed.

Lemma sell_persists_pnl_bps_witness :
  let run :=
    executeTradingDecisions Scenario.config Scenario.holding [Scenario.sell1] [] initialWorld in
  let result := CloseResult.mk "0xsell" 1700000000001 in
  TradePatch.pnl_bps (sell_patch Scenario.trade1 120 result) = 2000%float
  /\ exists later answer,
       World.trace (snd run)
       = later ++ sell_update Scenario.trade1 120 result answer
           :: sell_calls Scenario.config Scenario.sell1 [Scenario.trade1] Scenario.trade1
                120 result
           ++ World.trace initialWorld.
Proof.
  split; [vm_compute; reflexivity |].
  apply (sell_persists_pnl_bps Scenario.config Scenario.holding [] Scenario.sell1 [] []
           initialWorld).
  - reflexivity.
  - reflexivity.
  - vm_compute. repeat split; reflexivity.
Defined.

(** C4.  Take a SELL decision of a batch.  If, when its turn comes, the open
    trades are read, [t] is the first of them on the market of the decision,
    the price of [t] is fetched, the position is closed and the trade is
    updated, then the next thing [executeTradingDecisions] does is to generate
    the exit post for Twitter, and later the one for Farcaster, with the
    persisted [pnl_bps] and the reason the thresholds give for it: stop-loss
    when [pnl_bps <= -stopLossBps], otherwise take-profit when
    [pnl_bps >= takeProfitBps], otherwise signal-shift.  Every exit post of
    the batch carries the P&L and the reason of the update before it.  With
    thresholds 1500 and 3000: -1600 is stop-loss, 3200 is take-profit, 500 is
    signal-shift. *)
Theorem exit_reason_follows_thresholds :
  forall config env before d after marketPrices w,
    let start :=
      snd (executeTradingDecisions config env before marketPrices w) in
    let run :=
      executeTradingDecisions config env (before ++ d :: after) marketPrices w in
    (Decision.action d = SELL ->
     forall trades t price result,
       tradeToCloseOf d trades = Some t ->
       plays env
         (sell_update t price result (inr tt)
          :: sell_calls config d trades t price result) (World.trace start) ->
       exists later answer params,
         World.trace (snd run)
         = later ++ Ev (GenerateTradeExitPostForPlatform params TWITTER) answer
             :: sell_update t price result (inr tt)
             :: sell_calls config d trades t price result
             ++ World.trace start
         /\ ExitPostParams.pnlBps params = pnlBpsOf price (Trade.entry_price t)
         /\ ExitPostParams.exitReason params
            = exitReasonOf config (pnlBpsOf price (Trade.entry_price t))
         /\ exists answer',
              In (Ev (GenerateTradeExitPostForPlatform params FARCASTER) answer')
                 later)
    /\ continues (exit_reason_classified config) w (snd run)
    /\ (forall pnlBps,
          ((pnlBps <=? - Config.stopLossBps config)%float = true ->
           exitReasonOf config pnlBps = "Stop-loss risk control hit."%string)
          /\ ((pnlBps <=? - Config.stopLossBps config)%float = false ->
              JS.geb pnlBps (Config.takeProfitBps config) = true ->
              exitReasonOf config pnlBps = "Take-profit rule triggered."%string)
          /\ ((pnlBps <=? - Config.stopLossBps config)%float = false ->
              JS.geb pnlBps (Config.takeProfitBps config) = false ->
              exitReasonOf config pnlBps = "Signal shifted; trimming risk."%string))
    /\ (Config.stopLossBps config = 1500%float ->
        Config.takeProfitBps config = 3000%float ->
        exitReasonOf config (-1600)%float = "Stop-loss risk control hit."%string
        /\ exitReasonOf config 3200%float = "Take-profit rule triggered."%string
        /\ exitReasonOf config 500%float = "Signal shifted; trimming risk."%string).
Proof.
  intros. split; [| split; [| split]].
  - intros Hsell trades t price result Hfind Hplays.
    destruct (@batch_sell_posts config env before d after marketPrices w trades
                t price result Hsell Hfind Hplays)
      as (later & answer & params & Ht & Hp & Hr & _ & Hf).
    exists later, answer, params. auto.
  - eapply since_weaken; [| apply executeTradingDecisions_events].
    intros h e H. apply H.
  - intros pnlBps. unfold exitReasonOf.
    repeat split; intros H; rewrite H; try reflexivity;
      intros H'; rewrite H'; reflexivity.
  - intros Hsl Htp. unfold exitReasonOf, JS.geb. rewrite Hsl, Htp.
    repeat split; reflexivity.
Qed.

Lemma exit_reason_follows_thresholds_witness :
  let run :=
    executeTradingDecisions Scenario.config Scenario.holding [Scenario.sell1] [] initialWorld in
  let result := CloseResult.mk "0xsell" 1700000000001 in
  (exitReasonOf Scenario.config (-1600)%float = "Stop-loss risk control hit."%string
   /\ exitReasonOf Scenario.config 3200%float = "Take-profit rule triggered."%string
   /\ exitReasonOf Scenario.config 500%float = "Signal shifted; trimming risk."%string)
  /\ exists later answer params,
       World.trace (snd run)
       = later ++ Ev (GenerateTradeExitPostForPlatform params TWITTER) answer
           :: sell_update Scenario.trade1 120 result (inr tt)
           :: sell_calls Scenario.config Scenario.sell1 [Scenario.trade1] Scenario.trade1
                120 result
           ++ World.trace initialWorld
       /\ ExitPostParams.pnlBps params = pnlBpsOf 120 (Trade.entry_price Scenario.trade1)
       /\ ExitPostParams.exitReason params
          = exitReasonOf Scenario.config
              (pnlBpsOf 120 (Trade.entry_price Scenario.trade1))
       /\ exists answer',
            In (Ev (GenerateTradeExitPostForPlatform params FARCASTER) answer')
               later.
Proof.
  split.
  - apply (exit_reason_follows_thresholds Scenario.config Scenario.calm [] Scenario.sell1
             [] [] initialWorld); reflexivity.
  - apply (exit_reason_follows_thresholds Scenario.config Scenario.holding [] Scenario.sell1 [] []
             initialWorld).
    + reflexivity.
    + reflexivity.
    + vm_compute. repeat split; reflexivity.
Defined.

(** C10.  Take a SELL decision of a batch.  If, when its turn comes, the
    open trades are read, [t] is the first of them on the market of the
    decision, the price of [t] is fetched, the position is closed and the
    trade is updated, then the next thing [executeTradingDecisions] does is to
    generate the exit post for Twitter, and later the one for Farcaster, with
    the amount 0.1, whatever the amount of [t].  Every exit post of the batch
    is given this amount, and the patch written to a trade holds the exit
    price, the exit transaction, the exit time, the P&L and the status
    only. *)
Theorem exit_post_amount_is_placeholder :
  forall config env before d after marketPrices w,
    let start :=
      snd (executeTradingDecisions config env before marketPrices w) in
    let run :=
      executeTradingDecisions config env (before ++ d :: after) marketPrices w in
    (Decision.action d = SELL ->
     forall trades t price result,
       tradeToCloseOf d trades = Some t ->
       plays env
         (sell_update t price result (inr tt)
          :: sell_calls config d trades t price result) (World.trace start) ->
       exists later answer params,
         World.trace (snd run)
         = later ++ Ev (GenerateTradeExitPostForPlatform params TWITTER) answer
             :: sell_update t price result (inr tt)
             :: sell_calls config d trades t price result
             ++ World.trace start
         /\ ExitPostParams.amountEth params = num_0_1
         /\ exists answer',
              In (Ev (GenerateTradeExitPostForPlatform params FARCASTER) answer')
                 later)
    /\ num_0_1 = 0x1.999999999999ap-4%float
    /\ continues exit_amount_is_placeholder w (snd run).
Proof.
  intros. split; [| split].
  - intros Hsell trades t price result Hfind Hplays.
    destruct (@batch_sell_posts config env before d after marketPrices w trades
                t price result Hsell Hfind Hplays)
      as (later & answer & params & Ht & _ & _ & Ha & Hf).
    exists later, answer, params. auto.
  - reflexivity.
  - eapply since_weaken; [| apply executeTradingDecisions_events].
    intros h e H. apply H.
Qed.

Lemma exit_post_amount_is_placeholder_witness :
  let run :=
    executeTradingDecisions Scenario.config Scenario.holding [Scenario.sell1] [] initialWorld in
  let result := CloseResult.mk "0xsell" 1700000000001 in
  Trade.amount_eth Scenario.trade1 = JS.value 0x1.999999999999ap-5%float
  /\ exists later answer params,
       World.trace (snd run)
       = later ++ Ev (GenerateTradeExitPostForPlatform params TWITTER) answer
           :: sell_update Scenario.trade1 120 result (inr tt)
           :: sell_calls Scenario.config Scenario.sell1 [Scenario.trade1] Scenario.trade1
                120 result
           ++ World.trace initialWorld
       /\ ExitPostParams.amountEth params = num_0_1
       /\ exists answer',
            In (Ev (GenerateTradeExitPostForPlatform params FARCASTER) answer')
               later.
Proof.
  split; [reflexivity |].
  apply (exit_post_amount_is_placeholder Scenario.config Scenario.holding [] Scenario.sell1 [] []
           initialWorld).
  - reflexivity.
  - reflexivity.
  - vm_compute. repeat split; reflexivity.
Defined.

(* ================================================================== *)
(** * The position reconciliation *)
(* ================================================================== *)

Section Reconcile.
Variable env : Env.t.






End Reconcile.

Section Iteration.
Variable config : Config.t.
Variable env : Env.t.
Variable weiToEth : Z -> float.
Variable numToString : float -> string.
Variable startOfLocalDay : Z -> Z.





End Iteration.


